(** * The reply shim of go-unityscopes (reply.cpp)

    reply.cpp exposes the SearchReply and PreviewReply classes of the
    scopes library to Go through C-callable functions.  Every function
    converts its arguments, calls one method of the reply object and, for
    the four push functions, turns a caught std::exception into a C string
    stored through a [char **error] out-parameter.

    The scopes library itself (unity/scopes/...) is outside the file: it is
    an interface here, [ScopesApi], and every statement about the shim is
    proved for all of its implementations.  A small implementation with a
    recording consumer, [Loopback], serves as concrete input. *)

From Stdlib Require Import ZArith NArith List Lia.
From Stdlib Require Import Strings.Byte Strings.String.
From stdpp Require Import base option list gmap.

Local Open Scope Z_scope.

(** ** C++ values that cross the boundary *)

(** A thrown C++ value.  [StdException what] is an object of a class
    derived from std::exception; [what] is the content of the buffer that
    what() points to, before its terminating NUL (a std::runtime_error
    built from a std::string keeps every byte of it, so [what] may contain
    NUL bytes itself).  [OtherException] is a thrown value of any type that
    [catch (const std::exception &)] does not match. *)
Inductive exn : Type :=
  | StdException (what : list byte)
  | OtherException.

(** The result of evaluating a C++ expression: a value or a thrown
    exception. *)
Inductive res (A : Type) : Type :=
  | Val (a : A)
  | Throw (e : exn).
Arguments Val {A} a.
Arguments Throw {A} e.

Definition runtime_error (msg : list byte) : exn := StdException msg.

(** std::make_exception_ptr: the exception_ptr is modelled by the exception
    it refers to. *)
Definition make_exception_ptr (e : exn) : exn := e.

(** The GoString of _cgo_export.h: a pointer and a length, no terminator.
    The length of a Go string is never negative. *)
Module Go.
Record GoString : Type := { p : Z; n : N }.
End Go.
Abbreviation GoString := Go.GoString.

(** A [char *]: null, or the address of a NUL-terminated string whose
    bytes before the terminator are [s]. *)
Inductive charptr : Type :=
  | NullPtr
  | CStr (s : list byte).

(** The bytes a C string function reads from a buffer holding [s] followed
    by a NUL: everything before the first NUL. *)
Fixpoint c_str (s : list byte) : list byte :=
  match s with
  | [] => []
  | b :: s' => if Byte.eqb b x00 then [] else b :: c_str s'
  end.

(** strdup(3): a fresh copy of the C string (allocation is assumed to
    succeed). *)
Definition strdup (s : list byte) : charptr := CStr (c_str s).

(** std::string(p, n): the [n] bytes of memory [mem] that start at [p]. *)
Definition std_string (mem : Z -> byte) (p : Z) (n : N) : list byte :=
  map (fun i : nat => mem (p + Z.of_nat i)) (seq 0 (N.to_nat n)).

(** ** The scopes library, as the shim uses it *)

(** The methods take the reply object they are called on and the state of
    the library (channels, transport, consumer); a method either returns or
    throws, and may have changed the state in both cases.  The constructors
    and the decoders are static: they are given no reply object, hence no
    access to a channel, and are functions of their argument alone.  The
    value of a push call is discarded by the shim, so its type
    [PushResult] is left open. *)
Record ScopesApi : Type := {
  NativeState : Type;
  SearchReply : Type;
  PreviewReply : Type;
  CategorisedResult : Type;
  Category : Type;
  CategoryRenderer : Type;
  Department : Type;
  Variant : Type;
  VariantMap : Type;
  FilterBase : Type;
  FilterState : Type;
  PreviewWidget : Type;
  PushResult : Type;

  SearchReply_finished : SearchReply -> NativeState -> NativeState * res unit;
  SearchReply_error : SearchReply -> exn -> NativeState -> NativeState * res unit;
  SearchReply_register_category :
    SearchReply -> list byte -> list byte -> list byte -> CategoryRenderer ->
    NativeState -> NativeState * res Category;
  SearchReply_register_departments :
    SearchReply -> Department -> NativeState -> NativeState * res unit;
  SearchReply_push :
    SearchReply -> CategorisedResult -> NativeState -> NativeState * res PushResult;
  SearchReply_push_filters :
    SearchReply -> list FilterBase -> FilterState ->
    NativeState -> NativeState * res PushResult;

  PreviewReply_finished : PreviewReply -> NativeState -> NativeState * res unit;
  PreviewReply_error : PreviewReply -> exn -> NativeState -> NativeState * res unit;
  PreviewReply_push_widgets :
    PreviewReply -> list PreviewWidget -> NativeState -> NativeState * res PushResult;
  PreviewReply_push_attr :
    PreviewReply -> list byte -> Variant -> NativeState -> NativeState * res PushResult;

  CategoryRenderer_default : CategoryRenderer;
  CategoryRenderer_new : list byte -> res CategoryRenderer;
  PreviewWidget_new : list byte -> res PreviewWidget;
  Variant_deserialize_json : list byte -> res Variant;
  Variant_get_array : Variant -> res (list Variant);
  Variant_get_dict : Variant -> res VariantMap;
  FilterBase_deserialize : VariantMap -> res FilterBase;
  FilterState_deserialize : VariantMap -> res FilterState
}.

(** ** The state a shim function runs in *)

(** [native]: the state of the scopes library.  [bytes]: the caller's
    memory that GoStrings point into.  [cstrs]: the [char *] variables of
    the caller, by address; [*error = v] writes one.  [categories]: the
    storage behind the Category handles, by address. *)
Record World (L : ScopesApi) : Type := mkWorld {
  native : NativeState L;
  bytes : Z -> byte;
  cstrs : gmap Z charptr;
  categories : gmap Z (Category L)
}.
Arguments mkWorld {L}.
Arguments native {L}.
Arguments bytes {L}.
Arguments cstrs {L}.
Arguments categories {L}.

Definition set_native {L} (s : NativeState L) (w : World L) : World L :=
  mkWorld s (bytes w) (cstrs w) (categories w).

Definition set_cstr {L} (a : Z) (v : charptr) (w : World L) : World L :=
  mkWorld (native w) (bytes w) (<[a := v]> (cstrs w)) (categories w).

Definition set_category {L} (a : Z) (c : Category L) (w : World L) : World L :=
  mkWorld (native w) (bytes w) (cstrs w) (<[a := c]> (categories w)).

(** A C++ computation: it transforms the world and returns or throws.  At
    the top of a C-callable function, [Throw] is an exception that leaves
    the function and unwinds into the foreign caller. *)
Definition M (L : ScopesApi) (A : Type) : Type := World L -> World L * res A.

#[global] Instance M_ret L : MRet (M L) := fun A a w => (w, Val a).

#[global] Instance M_bind L : MBind (M L) := fun A B f m w =>
  match m w with
  | (w', Val a) => f a w'
  | (w', Throw e) => (w', Throw e)
  end.

(** A call into the library. *)
Definition call {L A} (f : NativeState L -> NativeState L * res A) : M L A :=
  fun w => let '(s, r) := f (native w) in (set_native s w, r).

(** A constructor or a static decoder. *)
Definition eval {L A} (r : res A) : M L A := fun w => (w, r).

(** [try { body } catch (const std::exception &e) { handler(e.what()) }] *)
Definition try_catch {L} (body : M L unit) (handler : list byte -> M L unit)
  : M L unit :=
  fun w =>
    match body w with
    | (w', Val a) => (w', Val a)
    | (w', Throw (StdException what)) => handler what w'
    | (w', Throw OtherException) => (w', Throw OtherException)
    end.

(** [*error = strdup(what)] *)
Definition store_error {L} (error : Z) (what : list byte) : M L unit :=
  fun w => (set_cstr error (strdup what) w, Val tt).

(** Modelled from the spec: smartptr_helper.h (get_ptr, init_ptr) is not
    part of the sources.  A handle is the storage of one shared pointer:
    get_ptr reads the pointer kept in an initialised handle, which the model
    identifies with the object it refers to, and init_ptr stores a pointer
    into the storage of a handle. *)
Definition get_ptr {T : Type} (data : T) : T := data.

(** Modelled from the spec: init_ptr of smartptr_helper.h, see [get_ptr]:
    the shared pointer [v] is stored into the handle at address [data]. *)
Definition init_ptr {L} (data : Z) (v : Category L) : M L unit :=
  fun w => (set_category data v w, Val tt).

(** ** reply.cpp *)

Section Shim.
Context {L : ScopesApi}.

(** [for (x : l) body]: the loops of the file only grow a vector. *)
Fixpoint for_each {A S : Type} (l : list A) (body : A -> S -> M L S) (acc : S)
  : M L S :=
  match l with
  | [] => mret acc
  | x :: l' => acc' ← body x acc; for_each l' body acc'
  end.

(** The expression [std::string(p, n)], which reads the caller's memory. *)
Definition read_string (p : Z) (n : N) : M L (list byte) :=
  fun w => (w, Val (std_string (bytes w) p n)).

(** The argument is the GoString that [str] points to. *)
Definition from_gostring (str : GoString) : M L (list byte) :=
  let s := str in
  read_string (Go.p s) (Go.n s).

Definition empty (s : list byte) : bool :=
  match s with [] => true | _ :: _ => false end.

Definition search_reply_finished (reply : SearchReply L) : M L unit :=
  call (SearchReply_finished L (get_ptr reply)).

Definition search_reply_error (reply : SearchReply L) (err_string : GoString)
  : M L unit :=
  msg ← from_gostring err_string;
  call (SearchReply_error L (get_ptr reply)
          (make_exception_ptr (runtime_error msg))).

Definition search_reply_register_category (reply : SearchReply L)
    (id title icon cat_template : GoString) (category : Z) : M L unit :=
  let renderer := CategoryRenderer_default L in
  renderer_template ← from_gostring cat_template;
  renderer ← (if negb (empty renderer_template)
              then eval (CategoryRenderer_new L renderer_template)
              else mret renderer);
  id_s ← from_gostring id;
  title_s ← from_gostring title;
  icon_s ← from_gostring icon;
  cat ← call (SearchReply_register_category L (get_ptr reply)
                id_s title_s icon_s renderer);
  init_ptr category cat.

Definition search_reply_register_departments (reply : SearchReply L)
    (dept : Department L) : M L unit :=
  call (SearchReply_register_departments L (get_ptr reply) (get_ptr dept)).

(** The try block of search_reply_push; [result] is the object that the
    _CategorisedResult pointer refers to. *)
Definition search_reply_push_try (reply : SearchReply L)
    (result : CategorisedResult L) : M L unit :=
  _ ← call (SearchReply_push L (get_ptr reply) result);
  mret tt.

Definition search_reply_push (reply : SearchReply L)
    (result : CategorisedResult L) (error : Z) : M L unit :=
  try_catch (search_reply_push_try reply result) (store_error error).

(** Everything in the try block of search_reply_push_filters that comes
    before the push. *)
Definition decode_filters (filters_json filter_state_json : GoString)
  : M L (list (FilterBase L) * FilterState L) :=
  fj ← from_gostring filters_json;
  filters_var ← eval (Variant_deserialize_json L fj);
  sj ← from_gostring filter_state_json;
  filter_state_var ← eval (Variant_deserialize_json L sj);
  arr ← eval (Variant_get_array L filters_var);
  filters ← for_each arr
    (fun f filters =>
       d ← eval (Variant_get_dict L f);
       x ← eval (FilterBase_deserialize L d);
       mret (filters ++ [x]))
    [];
  sd ← eval (Variant_get_dict L filter_state_var);
  filter_state ← eval (FilterState_deserialize L sd);
  mret (filters, filter_state).

Definition search_reply_push_filters_try (reply : SearchReply L)
    (filters_json filter_state_json : GoString) : M L unit :=
  fs ← decode_filters filters_json filter_state_json;
  _ ← call (SearchReply_push_filters L (get_ptr reply) (fst fs) (snd fs));
  mret tt.

Definition search_reply_push_filters (reply : SearchReply L)
    (filters_json filter_state_json : GoString) (error : Z) : M L unit :=
  try_catch (search_reply_push_filters_try reply filters_json filter_state_json)
            (store_error error).

Definition preview_reply_finished (reply : PreviewReply L) : M L unit :=
  call (PreviewReply_finished L (get_ptr reply)).

Definition preview_reply_error (reply : PreviewReply L) (err_string : GoString)
  : M L unit :=
  msg ← from_gostring err_string;
  call (PreviewReply_error L (get_ptr reply)
          (make_exception_ptr (runtime_error msg))).

(** The loop of preview_reply_push_widgets.  [widget_data i] is the
    GoString at index [i] of the array that [gostring_array] points to;
    [i] takes the values 0, 1, ..., count - 1 (none when count <= 0). *)
Definition build_widgets (widget_data : Z -> GoString) (count : Z)
  : M L (list (PreviewWidget L)) :=
  for_each (seqZ 0 count)
    (fun i widgets =>
       s ← read_string (Go.p (widget_data i)) (Go.n (widget_data i));
       w ← eval (PreviewWidget_new L s);
       mret (widgets ++ [w]))
    [].

Definition preview_reply_push_widgets_try (reply : PreviewReply L)
    (gostring_array : Z -> GoString) (count : Z) : M L unit :=
  let widget_data := gostring_array in
  widgets ← build_widgets widget_data count;
  _ ← call (PreviewReply_push_widgets L (get_ptr reply) widgets);
  mret tt.

Definition preview_reply_push_widgets (reply : PreviewReply L)
    (gostring_array : Z -> GoString) (count : Z) (error : Z) : M L unit :=
  try_catch (preview_reply_push_widgets_try reply gostring_array count)
            (store_error error).

Definition preview_reply_push_attr_try (reply : PreviewReply L)
    (key json_value : GoString) : M L unit :=
  js ← from_gostring json_value;
  value ← eval (Variant_deserialize_json L js);
  k ← from_gostring key;
  _ ← call (PreviewReply_push_attr L (get_ptr reply) k value);
  mret tt.

Definition preview_reply_push_attr (reply : PreviewReply L)
    (key json_value : GoString) (error : Z) : M L unit :=
  try_catch (preview_reply_push_attr_try reply key json_value)
            (store_error error).

End Shim.

(** The four functions that take a [char **error], with their arguments:
    what a statement about all of them quantifies over. *)
Inductive PushOp (L : ScopesApi) : Type :=
  | OpPush (reply : SearchReply L) (result : CategorisedResult L)
  | OpPushFilters (reply : SearchReply L) (filters_json filter_state_json : GoString)
  | OpPushWidgets (reply : PreviewReply L) (gostring_array : Z -> GoString) (count : Z)
  | OpPushAttr (reply : PreviewReply L) (key json_value : GoString).
Arguments OpPush {L}.
Arguments OpPushFilters {L}.
Arguments OpPushWidgets {L}.
Arguments OpPushAttr {L}.

(** The try block of the function. *)
Definition op_try {L} (o : PushOp L) : M L unit :=
  match o with
  | OpPush reply result => search_reply_push_try reply result
  | OpPushFilters reply fj sj => search_reply_push_filters_try reply fj sj
  | OpPushWidgets reply arr count => preview_reply_push_widgets_try reply arr count
  | OpPushAttr reply key json_value => preview_reply_push_attr_try reply key json_value
  end.

(** The function itself. *)
Definition op_run {L} (o : PushOp L) (error : Z) : M L unit :=
  match o with
  | OpPush reply result => search_reply_push reply result error
  | OpPushFilters reply fj sj => search_reply_push_filters reply fj sj error
  | OpPushWidgets reply arr count => preview_reply_push_widgets reply arr count error
  | OpPushAttr reply key json_value => preview_reply_push_attr reply key json_value error
  end.

(** [stored mem a s]: the bytes [s] lie in memory from address [a] on. *)
Definition stored (mem : Z -> byte) (a : Z) (s : list byte) : Prop :=
  std_string mem a (N.of_nat (length s)) = s.

(** What a push function makes of the outcome [r] of the push method it
    called in world [w]: the value is dropped, a std::exception becomes the
    error string, anything else thrown goes on. *)
Definition push_outcome {L} (error : Z) (w : World L)
    (r : NativeState L * res (PushResult L)) : World L * res unit :=
  match r with
  | (s, Val _) => (set_native s w, Val tt)
  | (s, Throw (StdException what)) =>
      (set_cstr error (strdup what) (set_native s w), Val tt)
  | (s, Throw OtherException) => (set_native s w, Throw OtherException)
  end.

(** The bytes a GoString designates in the memory of [w]. *)
Definition text_of {L} (w : World L) (str : GoString) : list byte :=
  std_string (bytes w) (Go.p str) (Go.n str).

(** The bytes of the GoString at index [i] of the array [widget_data]. *)
Definition widget_text {L} (w : World L) (widget_data : Z -> GoString) (i : Z)
  : list byte :=
  std_string (bytes w) (Go.p (widget_data i)) (Go.n (widget_data i)).

(** What the loop of search_reply_push_filters makes of one element of the
    array: [FilterBase::deserialize(f.get_dict())]. *)
Definition filter_of {L} (f : Variant L) : res (FilterBase L) :=
  match Variant_get_dict L f with
  | Val d => FilterBase_deserialize L d
  | Throw e => Throw e
  end.

(** An array of GoStrings in memory, as the function from index to element. *)
Definition gostring_array_of (l : list GoString) : Z -> GoString :=
  fun i => nth (Z.to_nat i) l {| Go.p := 0; Go.n := 0 |}.

(** The GoString the Go runtime passes for [s] kept at address [a]. *)
Definition gostring_at (a : Z) (s : list byte) : GoString :=
  {| Go.p := a; Go.n := N.of_nat (length s) |}.

(** ** Concrete inputs *)

(** Memory [mem] with the bytes [s] written from address [a] on. *)
Definition poke (a : Z) (s : list byte) (mem : Z -> byte) : Z -> byte :=
  fun x =>
    if (a <=? x) && (x <? a + Z.of_nat (length s))
    then nth (Z.to_nat (x - a)) s x00
    else mem x.

Definition zeroed : Z -> byte := fun _ => x00.

Definition text (s : string) : list byte := list_byte_of_string s.

(** JSON text, written with an apostrophe where JSON has a double quote. *)
Definition json (s : string) : list byte :=
  map (fun b => if Byte.eqb b x27 then x22 else b) (text s).

Fixpoint bytes_eqb (a b : list byte) : bool :=
  match a, b with
  | [], [] => true
  | x :: a', y :: b' => Byte.eqb x y && bytes_eqb a' b'
  | _, _ => false
  end.

(** A scopes library with one channel whose transport hands every event to
    a consumer that records it.  It is an input for the shim, not a model of
    the real library: calls on a terminated channel are either ignored or
    rejected with an exception, as the instance says; its JSON decoder knows
    the documents of a table and rejects every other text, quoting it. *)
Module Loopback.

Definition Members : Type := list (list byte * list byte).

Inductive Value : Type :=
  | VString (s : list byte)
  | VDict (members : Members)
  | VArray (dicts : list Members).

Inductive Event : Type :=
  | EvCategory (id title icon renderer : list byte)
  | EvDepartments (tree : list byte)
  | EvResult (result : list byte)
  | EvFilters (filter_ids state_keys : list (list byte))
  | EvWidgets (widgets : list (list byte))
  | EvAttribute (key : list byte) (value : Value)
  | EvFinished
  | EvError (e : exn).

Inductive Phase : Type := Open | Finished | Errored.

Record State : Type := mkState {
  phase : Phase;
  consumer : list Event;
  category_ids : list (list byte)
}.

Inductive OnClosed : Type :=
  | Ignore
  | Raise (e : exn).

Definition initial : State := mkState Open [] [].

Definition is_open (s : State) : bool :=
  match phase s with Open => true | _ => false end.

Definition deliver (ph : Phase) (ev : Event) (s : State) : State :=
  mkState ph (consumer s ++ [ev]) (category_ids s).

Definition push_event (pol : OnClosed) (ev : Event) (s : State)
  : State * res bool :=
  if is_open s then (deliver Open ev s, Val true)
  else match pol with
       | Ignore => (s, Val false)
       | Raise e => (s, Throw e)
       end.

Definition terminate (pol : OnClosed) (ph : Phase) (ev : Event) (s : State)
  : State * res unit :=
  if is_open s then (deliver ph ev s, Val tt)
  else match pol with
       | Ignore => (s, Val tt)
       | Raise e => (s, Throw e)
       end.

Definition register_category (id title icon renderer : list byte) (s : State)
  : State * res (list byte) :=
  if existsb (bytes_eqb id) (category_ids s)
  then (s, Throw (StdException (text "duplicate category id")))
  else (mkState (phase s) (consumer s ++ [EvCategory id title icon renderer])
                (id :: category_ids s),
        Val id).

Definition documents : list (list byte * Value) :=
  [ (json "[]", VArray []);
    (json "{}", VDict []);
    (json "'4.5'", VString (text "4.5"));
    (json "[{'id':'size'}]", VArray [[(text "id", text "size")]]);
    (json "{'colour':'red'}", VDict [(text "colour", text "red")]) ].

Definition deserialize_json (s : list byte) : res Value :=
  match List.find (fun d => bytes_eqb s (fst d)) documents with
  | Some d => Val (snd d)
  | None => Throw (StdException (text "cannot parse: " ++ s))
  end.

Definition get_array (v : Value) : res (list Value) :=
  match v with
  | VArray dicts => Val (map VDict dicts)
  | _ => Throw (StdException (text "not an array"))
  end.

Definition get_dict (v : Value) : res Members :=
  match v with
  | VDict members => Val members
  | _ => Throw (StdException (text "not a dict"))
  end.

Definition filter_deserialize (d : Members) : res (list byte) :=
  match List.find (fun m => bytes_eqb (text "id") (fst m)) d with
  | Some (_, id) => Val id
  | None => Throw (StdException (text "filter without id"))
  end.

Definition widget_new (definition : list byte) : res (list byte) :=
  match definition with
  | [] => Throw (StdException (text "empty widget definition"))
  | _ :: _ => Val definition
  end.

Definition api (pol : OnClosed) : ScopesApi := {|
  NativeState := State;
  SearchReply := unit;
  PreviewReply := unit;
  CategorisedResult := list byte;
  Category := list byte;
  CategoryRenderer := list byte;
  Department := list byte;
  Variant := Value;
  VariantMap := Members;
  FilterBase := list byte;
  FilterState := list (list byte);
  PreviewWidget := list byte;
  PushResult := bool;
  SearchReply_finished := fun _ => terminate pol Finished EvFinished;
  SearchReply_error := fun _ e => terminate pol Errored (EvError e);
  SearchReply_register_category := fun _ => register_category;
  SearchReply_register_departments := fun _ d s =>
    (deliver (phase s) (EvDepartments d) s, Val tt);
  SearchReply_push := fun _ r => push_event pol (EvResult r);
  SearchReply_push_filters := fun _ fs st => push_event pol (EvFilters fs st);
  PreviewReply_finished := fun _ => terminate pol Finished EvFinished;
  PreviewReply_error := fun _ e => terminate pol Errored (EvError e);
  PreviewReply_push_widgets := fun _ ws => push_event pol (EvWidgets ws);
  PreviewReply_push_attr := fun _ k v => push_event pol (EvAttribute k v);
  CategoryRenderer_default := text "default";
  CategoryRenderer_new := fun s => Val s;
  PreviewWidget_new := widget_new;
  Variant_deserialize_json := deserialize_json;
  Variant_get_array := get_array;
  Variant_get_dict := get_dict;
  FilterBase_deserialize := filter_deserialize;
  FilterState_deserialize := fun d => Val (map fst d)
|}.

(** What a library that rejects calls on a terminated channel throws. *)
Definition closed : exn := StdException (text "channel is closed").

(** The three instances: calls on a terminated channel are ignored,
    rejected with a std::exception, or rejected with a thrown value that
    is no std::exception. *)
Definition ignoring : ScopesApi := api Ignore.
Definition rejecting : ScopesApi := api (Raise closed).
Definition aborting : ScopesApi := api (Raise OtherException).

(** A world with an open channel and nothing delivered. *)
Definition world (L : ScopesApi) (s : NativeState L) (mem : Z -> byte) : World L :=
  mkWorld s mem ∅ ∅.

End Loopback.

(** The loopback library with a stricter CategoryRenderer constructor (the
    template has to begin with an opening brace) and a decoder that knows
    one more document, an array whose second element has no id. *)
Module Picky.

Definition renderer_new (template : list byte) : res (list byte) :=
  match template with
  | b :: _ =>
      if Byte.eqb b x7b then Val template
      else Throw (StdException (text "renderer template is not an object"))
  | [] => Throw (StdException (text "renderer template is empty"))
  end.

Definition documents : list (list byte * Loopback.Value) :=
  (json "[{'id':'size'},{'name':'x'},{'id':'age'}]",
   Loopback.VArray [[(text "id", text "size")];
                    [(text "name", text "x")];
                    [(text "id", text "age")]])
  :: Loopback.documents.

Definition deserialize_json (s : list byte) : res Loopback.Value :=
  match List.find (fun d => bytes_eqb s (fst d)) documents with
  | Some d => Val (snd d)
  | None => Throw (StdException (text "cannot parse: " ++ s))
  end.

Definition api : ScopesApi := {|
  NativeState := Loopback.State;
  SearchReply := unit;
  PreviewReply := unit;
  CategorisedResult := list byte;
  Category := list byte;
  CategoryRenderer := list byte;
  Department := list byte;
  Variant := Loopback.Value;
  VariantMap := Loopback.Members;
  FilterBase := list byte;
  FilterState := list (list byte);
  PreviewWidget := list byte;
  PushResult := bool;
  SearchReply_finished := SearchReply_finished Loopback.ignoring;
  SearchReply_error := SearchReply_error Loopback.ignoring;
  SearchReply_register_category := SearchReply_register_category Loopback.ignoring;
  SearchReply_register_departments :=
    SearchReply_register_departments Loopback.ignoring;
  SearchReply_push := SearchReply_push Loopback.ignoring;
  SearchReply_push_filters := SearchReply_push_filters Loopback.ignoring;
  PreviewReply_finished := PreviewReply_finished Loopback.ignoring;
  PreviewReply_error := PreviewReply_error Loopback.ignoring;
  PreviewReply_push_widgets := PreviewReply_push_widgets Loopback.ignoring;
  PreviewReply_push_attr := PreviewReply_push_attr Loopback.ignoring;
  CategoryRenderer_default := text "default";
  CategoryRenderer_new := renderer_new;
  PreviewWidget_new := Loopback.widget_new;
  Variant_deserialize_json := deserialize_json;
  Variant_get_array := Loopback.get_array;
  Variant_get_dict := Loopback.get_dict;
  FilterBase_deserialize := Loopback.filter_deserialize;
  FilterState_deserialize := fun d => Val (map fst d)
|}.

End Picky.


(** ** What the two blobs of search_reply_push_filters decode to *)

(** The filters blob and the state blob decode: the first parses to an
    array whose elements all deserialize to filters, the second parses to a
    dict that deserializes to a filter state. *)
Definition blobs_decoded (L : ScopesApi) (filters_text state_text : list byte)
    (filters : list (FilterBase L)) (filter_state : FilterState L) : Prop :=
  exists filters_var state_var arr dict,
    Variant_deserialize_json L filters_text = Val filters_var
    /\ Variant_deserialize_json L state_text = Val state_var
    /\ Variant_get_array L filters_var = Val arr
    /\ map filter_of arr = map Val filters
    /\ Variant_get_dict L state_var = Val dict
    /\ FilterState_deserialize L dict = Val filter_state.

(** One of the two blobs fails to parse or to deserialize into the expected
    shape; [e] is what the decoder that rejects it throws.  The cases are
    the ways a blob can be wrong: the filters blob is no JSON; the state
    blob is no JSON; the filters blob is no array; an element of the array
    is no dict or no filter; the state blob is no dict; the state dict is no
    filter state. *)
Inductive blobs_rejected (L : ScopesApi) (filters_text state_text : list byte)
    (e : exn) : Prop :=
  | filters_unparsable :
      Variant_deserialize_json L filters_text = Throw e ->
      blobs_rejected L filters_text state_text e
  | state_unparsable (filters_var : Variant L) :
      Variant_deserialize_json L filters_text = Val filters_var ->
      Variant_deserialize_json L state_text = Throw e ->
      blobs_rejected L filters_text state_text e
  | filters_not_an_array (filters_var state_var : Variant L) :
      Variant_deserialize_json L filters_text = Val filters_var ->
      Variant_deserialize_json L state_text = Val state_var ->
      Variant_get_array L filters_var = Throw e ->
      blobs_rejected L filters_text state_text e
  | element_not_a_filter (filters_var state_var : Variant L)
      (pre post : list (Variant L)) (f : Variant L) (ok : list (FilterBase L)) :
      Variant_deserialize_json L filters_text = Val filters_var ->
      Variant_deserialize_json L state_text = Val state_var ->
      Variant_get_array L filters_var = Val (pre ++ f :: post) ->
      map filter_of pre = map Val ok ->
      filter_of f = Throw e ->
      blobs_rejected L filters_text state_text e
  | state_not_a_dict (filters_var state_var : Variant L)
      (arr : list (Variant L)) (filters : list (FilterBase L)) :
      Variant_deserialize_json L filters_text = Val filters_var ->
      Variant_deserialize_json L state_text = Val state_var ->
      Variant_get_array L filters_var = Val arr ->
      map filter_of arr = map Val filters ->
      Variant_get_dict L state_var = Throw e ->
      blobs_rejected L filters_text state_text e
  | state_not_a_filter_state (filters_var state_var : Variant L)
      (arr : list (Variant L)) (filters : list (FilterBase L))
      (dict : VariantMap L) :
      Variant_deserialize_json L filters_text = Val filters_var ->
      Variant_deserialize_json L state_text = Val state_var ->
      Variant_get_array L filters_var = Val arr ->
      map filter_of arr = map Val filters ->
      Variant_get_dict L state_var = Val dict ->
      FilterState_deserialize L dict = Throw e ->
      blobs_rejected L filters_text state_text e.

(** * Properties *)

(** ** Memory and C strings *)

Lemma length_std_string mem a n : length (std_string mem a n) = N.to_nat n.
Proof. unfold std_string. by rewrite length_map, length_seq. Qed.

Lemma lookup_std_string mem a n (i : nat) :
  (i < N.to_nat n)%nat -> std_string mem a n !! i = Some (mem (a + Z.of_nat i)).
Proof.
  intros Hi. unfold std_string.
  rewrite list_lookup_fmap, lookup_seq_lt by done. done.
Qed.

Lemma stored_lookup mem a s (i : nat) b :
  stored mem a s -> s !! i = Some b -> mem (a + Z.of_nat i) = b.
Proof.
  unfold stored. intros Hs Hi.
  assert (i < length s)%nat as Hlt by (by eapply lookup_lt_Some).
  rewrite <- Hs in Hi.
  rewrite lookup_std_string in Hi by lia. congruence.
Qed.

Lemma stored_poke a s mem : stored (poke a s mem) a s.
Proof.
  unfold stored. apply list_eq. intros i.
  destruct (decide (i < length s)%nat) as [Hi|Hi].
  - rewrite lookup_std_string by lia. unfold poke.
    replace (a <=? a + Z.of_nat i) with true by (symmetry; apply Z.leb_le; lia).
    replace (a + Z.of_nat i <? a + Z.of_nat (length s)) with true
      by (symmetry; apply Z.ltb_lt; lia).
    simpl. replace (Z.to_nat (a + Z.of_nat i - a)) with i by lia.
    destruct (lookup_lt_is_Some_2 s i Hi) as [b Hb]. rewrite Hb.
    f_equal. by apply nth_lookup_Some.
  - rewrite !lookup_ge_None_2; [done | lia |].
    rewrite length_std_string. lia.
Qed.

Lemma from_gostring_stored {L} (w : World L) a s :
  stored (bytes w) a s -> from_gostring (gostring_at a s) w = (w, Val s).
Proof.
  unfold stored, from_gostring, read_string, gostring_at. simpl. by intros ->.
Qed.

Lemma c_str_no_nul s : x00 ∉ s -> c_str s = s.
Proof.
  induction s as [|b s IH]; [done|]. intros Hn. simpl.
  destruct (Byte.eqb b x00) eqn:E.
  - apply Byte.byte_dec_bl in E. subst. exfalso. apply Hn. by left.
  - f_equal. apply IH. intros Hin. apply Hn. by right.
Qed.

Lemma c_str_until_nul pre post : x00 ∉ pre -> c_str (pre ++ x00 :: post) = pre.
Proof.
  induction pre as [|b pre IH]; intros Hn; simpl; [done|].
  destruct (Byte.eqb b x00) eqn:E.
  - apply Byte.byte_dec_bl in E. subst. exfalso. apply Hn. by left.
  - f_equal. apply IH. intros Hin. apply Hn. by right.
Qed.

Lemma c_str_has_no_nul s : x00 ∉ c_str s.
Proof.
  induction s as [|b s IH]; simpl; [by apply not_elem_of_nil|].
  destruct (Byte.eqb b x00) eqn:E; [by apply not_elem_of_nil|].
  apply Byte.eqb_false in E. intros [Heq|Hin]%elem_of_cons; [congruence|by apply IH].
Qed.

(** ** What a try block can change *)

Ltac unfold_m :=
  unfold mbind, M_bind, mret, M_ret, call, eval, from_gostring, read_string,
    get_ptr, make_exception_ptr in *.

Lemma bind_pure {L A B} (m : M L A) (f : A -> M L B) w :
  fst (m w) = w ->
  (m ≫= f) w = match snd (m w) with
               | Val a => f a w
               | Throw e => (w, Throw e)
               end.
Proof.
  unfold mbind, M_bind. destruct (m w) as [w' [a|e]]; simpl; by intros ->.
Qed.

Lemma for_each_pure {L A S} (l : list A) (body : A -> S -> M L S) acc w :
  (forall x a, fst (body x a w) = w) -> fst (for_each l body acc w) = w.
Proof.
  intros Hbody. revert acc.
  induction l as [|x l IH]; intros acc; simpl; [done|].
  rewrite bind_pure by apply Hbody.
  destruct (snd (body x acc w)); [apply IH | done].
Qed.

Lemma eval_bind {L A B} (r : res A) (f : A -> M L B) w :
  (eval r ≫= f) w = match r with
                    | Val a => f a w
                    | Throw e => (w, Throw e)
                    end.
Proof. unfold_m. by destruct r. Qed.

Lemma read_string_bind {L B} (p : Z) (n : N) (f : list byte -> M L B) w :
  (read_string p n ≫= f) w = f (std_string (bytes w) p n) w.
Proof. by unfold_m. Qed.

Lemma from_gostring_bind {L B} (str : GoString) (f : list byte -> M L B) w :
  (from_gostring str ≫= f) w
  = f (std_string (bytes w) (Go.p str) (Go.n str)) w.
Proof. apply read_string_bind. Qed.

Lemma decode_filters_pure {L} (fj sj : GoString) (w : World L) :
  fst (decode_filters fj sj w) = w.
Proof.
  unfold decode_filters.
  rewrite from_gostring_bind, eval_bind.
  destruct (Variant_deserialize_json L _); [|done].
  rewrite from_gostring_bind, eval_bind.
  destruct (Variant_deserialize_json L _); [|done].
  rewrite eval_bind.
  destruct (Variant_get_array L _) as [arr|]; [|done].
  rewrite bind_pure.
  2:{ apply for_each_pure. intros x acc. rewrite eval_bind.
      destruct (Variant_get_dict L x); [|done]. rewrite eval_bind.
      by destruct (FilterBase_deserialize L _). }
  destruct (snd _); [|done].
  rewrite eval_bind.
  destruct (Variant_get_dict L _); [|done].
  rewrite eval_bind.
  by destruct (FilterState_deserialize L _).
Qed.

Lemma build_widgets_pure {L} (widget_data : Z -> GoString) count (w : World L) :
  fst (build_widgets widget_data count w) = w.
Proof.
  unfold build_widgets. apply for_each_pure. intros i acc.
  rewrite read_string_bind, eval_bind.
  by destruct (PreviewWidget_new L _).
Qed.

Lemma call_discard {L A} (f : NativeState L -> NativeState L * res A) (w : World L) :
  (call f ≫= fun _ => mret tt) w
  = (set_native (fst (f (native w))) w,
     match snd (f (native w)) with Val _ => Val tt | Throw e => Throw e end).
Proof. unfold_m. by destruct (f (native w)) as [s [a|e]]. Qed.

(** A try block changes nothing but the state of the library. *)
Lemma op_try_frame {L} (o : PushOp L) (w : World L) :
  exists s, fst (op_try o w) = set_native s w.
Proof.
  destruct o as [reply result|reply fj sj|reply arr count|reply key jv]; simpl.
  - unfold search_reply_push_try. rewrite call_discard. by eexists.
  - unfold search_reply_push_filters_try.
    rewrite bind_pure by apply decode_filters_pure.
    destruct (snd _) as [fs|e].
    + rewrite call_discard. by eexists.
    + exists (native w). by destruct w.
  - unfold preview_reply_push_widgets_try.
    rewrite bind_pure by apply build_widgets_pure.
    destruct (snd _) as [ws|e].
    + rewrite call_discard. by eexists.
    + exists (native w). by destruct w.
  - unfold preview_reply_push_attr_try.
    rewrite from_gostring_bind, eval_bind.
    destruct (Variant_deserialize_json L _) as [v|e].
    + rewrite from_gostring_bind, call_discard. by eexists.
    + exists (native w). by destruct w.
Qed.

Lemma op_try_cstrs {L} (o : PushOp L) (w : World L) :
  cstrs (fst (op_try o w)) = cstrs w.
Proof. destruct (op_try_frame o w) as [s ->]. done. Qed.

Lemma op_run_try_catch {L} (o : PushOp L) error :
  op_run o error = try_catch (op_try o) (store_error error).
Proof. by destruct o. Qed.

(** ** The two loops *)

Lemma widgets_loop_ok {L} (w : World L) (widget_data : Z -> GoString)
    (l : list Z) (acc widgets : list (PreviewWidget L)) :
  map (fun i => PreviewWidget_new L (widget_text w widget_data i)) l
    = map Val widgets ->
  for_each l
    (fun i ws =>
       s ← read_string (Go.p (widget_data i)) (Go.n (widget_data i));
       x ← eval (PreviewWidget_new L s);
       mret (ws ++ [x])) acc w
  = (w, Val (acc ++ widgets)).
Proof.
  revert acc widgets.
  induction l as [|i l IH]; intros acc [|x widgets] Hmap;
    simpl in Hmap; try discriminate.
  - simpl. by rewrite app_nil_r.
  - injection Hmap as Hx Hrest. simpl.
    unfold mbind at 1, M_bind at 1.
    rewrite read_string_bind, eval_bind.
    fold (widget_text w widget_data i). rewrite Hx. simpl.
    rewrite (IH _ widgets Hrest). by rewrite <- app_assoc.
Qed.

Lemma widgets_loop_throw {L} (w : World L) (widget_data : Z -> GoString)
    (l1 l2 : list Z) (i : Z) (acc pre : list (PreviewWidget L)) e :
  map (fun i => PreviewWidget_new L (widget_text w widget_data i)) l1
    = map Val pre ->
  PreviewWidget_new L (widget_text w widget_data i) = Throw e ->
  for_each (l1 ++ i :: l2)
    (fun i ws =>
       s ← read_string (Go.p (widget_data i)) (Go.n (widget_data i));
       x ← eval (PreviewWidget_new L s);
       mret (ws ++ [x])) acc w
  = (w, Throw e).
Proof.
  revert acc pre.
  induction l1 as [|j l1 IH]; intros acc [|x pre] Hmap Hi;
    simpl in Hmap; try discriminate; simpl.
  - unfold mbind at 1, M_bind at 1.
    rewrite read_string_bind, eval_bind.
    fold (widget_text w widget_data i). by rewrite Hi.
  - injection Hmap as Hx Hrest.
    unfold mbind at 1, M_bind at 1.
    rewrite read_string_bind, eval_bind.
    fold (widget_text w widget_data j). rewrite Hx. simpl.
    by apply (IH _ pre).
Qed.

Lemma build_widgets_ok {L} (w : World L) (widget_data : Z -> GoString)
    (count : Z) (widgets : list (PreviewWidget L)) :
  map (fun i => PreviewWidget_new L (widget_text w widget_data i)) (seqZ 0 count)
    = map Val widgets ->
  build_widgets widget_data count w = (w, Val widgets).
Proof. intros H. unfold build_widgets. by rewrite (widgets_loop_ok _ _ _ [] widgets). Qed.

Lemma filters_loop_ok {L} (w : World L) (arr : list (Variant L))
    (acc filters : list (FilterBase L)) :
  map filter_of arr = map Val filters ->
  for_each arr
    (fun f fs =>
       d ← eval (Variant_get_dict L f);
       x ← eval (FilterBase_deserialize L d);
       mret (fs ++ [x])) acc w
  = (w, Val (acc ++ filters)).
Proof.
  revert acc filters.
  induction arr as [|f arr IH]; intros acc [|x filters] Hmap;
    simpl in Hmap; try discriminate.
  - simpl. by rewrite app_nil_r.
  - injection Hmap as Hx Hrest. simpl.
    unfold mbind at 1, M_bind at 1. rewrite eval_bind.
    unfold filter_of in Hx.
    destruct (Variant_get_dict L f) as [d|]; [|done].
    rewrite eval_bind, Hx. simpl.
    rewrite (IH _ filters Hrest). by rewrite <- app_assoc.
Qed.

Lemma decode_filters_ok {L} (w : World L) (fj sj : GoString)
    fv sv arr filters sd st :
  Variant_deserialize_json L (std_string (bytes w) (Go.p fj) (Go.n fj)) = Val fv ->
  Variant_deserialize_json L (std_string (bytes w) (Go.p sj) (Go.n sj)) = Val sv ->
  Variant_get_array L fv = Val arr ->
  map filter_of arr = map Val filters ->
  Variant_get_dict L sv = Val sd ->
  FilterState_deserialize L sd = Val st ->
  decode_filters fj sj w = (w, Val (filters, st)).
Proof.
  intros Hf Hs Harr Hfs Hsd Hst. unfold decode_filters.
  rewrite from_gostring_bind, eval_bind, Hf.
  rewrite from_gostring_bind, eval_bind, Hs.
  rewrite eval_bind, Harr.
  unfold mbind at 1, M_bind at 1.
  rewrite (filters_loop_ok w arr [] filters Hfs). simpl.
  by rewrite eval_bind, Hsd, eval_bind, Hst.
Qed.

Lemma decode_filters_bad_json {L} (w : World L) (fj sj : GoString) e :
  Variant_deserialize_json L (std_string (bytes w) (Go.p fj) (Go.n fj)) = Throw e
  \/ (exists fv,
        Variant_deserialize_json L (std_string (bytes w) (Go.p fj) (Go.n fj)) = Val fv
        /\ Variant_deserialize_json L (std_string (bytes w) (Go.p sj) (Go.n sj)) = Throw e) ->
  decode_filters fj sj w = (w, Throw e).
Proof.
  unfold decode_filters. intros [Hf|(fv & Hf & Hs)].
  - by rewrite from_gostring_bind, eval_bind, Hf.
  - rewrite from_gostring_bind, eval_bind, Hf.
    by rewrite from_gostring_bind, eval_bind, Hs.
Qed.

Lemma filters_loop_throw {L} (w : World L) (pre post : list (Variant L))
    (f : Variant L) (acc ok : list (FilterBase L)) (e : exn) :
  map filter_of pre = map Val ok ->
  filter_of f = Throw e ->
  for_each (pre ++ f :: post)
    (fun f fs =>
       d ← eval (Variant_get_dict L f);
       x ← eval (FilterBase_deserialize L d);
       mret (fs ++ [x])) acc w
  = (w, Throw e).
Proof.
  revert acc ok.
  induction pre as [|g pre IH]; intros acc [|x ok] Hmap Hf;
    simpl in Hmap; try discriminate; simpl.
  - unfold mbind at 1, M_bind at 1. rewrite eval_bind.
    unfold filter_of in Hf.
    destruct (Variant_get_dict L f) as [d|e0]; [|congruence].
    by rewrite eval_bind, Hf.
  - injection Hmap as Hx Hrest.
    unfold mbind at 1, M_bind at 1. rewrite eval_bind.
    unfold filter_of in Hx.
    destruct (Variant_get_dict L g) as [d|]; [|done].
    rewrite eval_bind, Hx. simpl. by apply (IH _ ok).
Qed.

Lemma push_filters_decode_throw {L} (reply : SearchReply L)
    (fj sj : GoString) (error : Z) (w : World L) (what : list byte) :
  decode_filters fj sj w = (w, Throw (StdException what)) ->
  search_reply_push_filters reply fj sj error w
  = (set_cstr error (strdup what) w, Val tt).
Proof.
  intros H.
  unfold search_reply_push_filters, try_catch, search_reply_push_filters_try.
  unfold mbind at 1, M_bind at 1. by rewrite H.
Qed.

(** Every array either deserializes element by element, or has a first
    element that does not. *)
Lemma filters_array_cases {L} (arr : list (Variant L)) :
  (exists filters : list (FilterBase L), map filter_of arr = map Val filters)
  \/ (exists pre f post (ok : list (FilterBase L)) e,
        arr = pre ++ f :: post
        /\ map filter_of pre = map Val ok
        /\ filter_of f = Throw e).
Proof.
  induction arr as [|g arr IH].
  - left. by exists [].
  - destruct (filter_of g) as [x|e] eqn:Hg.
    + destruct IH as [[filters Hfs]|(pre & f & post & ok & e & -> & Hpre & Hf)].
      * left. exists (x :: filters). simpl. by rewrite Hg, Hfs.
      * right. exists (g :: pre), f, post, (x :: ok), e.
        split; [done|]. split; [|done]. simpl. by rewrite Hg, Hpre.
    + right. by exists [], g, arr, [], e.
Qed.

Lemma decode_filters_rejected {L} (w : World L) (fj sj : GoString) (e : exn) :
  blobs_rejected L (text_of w fj) (text_of w sj) e ->
  decode_filters fj sj w = (w, Throw e).
Proof.
  unfold text_of.
  intros [Hf|fv Hf Hs|fv sv Hf Hs Harr|fv sv pre post f ok Hf Hs Harr Hpre Hbad
         |fv sv arr filters Hf Hs Harr Hfs Hd
         |fv sv arr filters dict Hf Hs Harr Hfs Hd Hst];
    unfold decode_filters; rewrite from_gostring_bind, eval_bind, Hf; [done|..];
    rewrite from_gostring_bind, eval_bind, Hs; [done|..];
    rewrite eval_bind, Harr; [done|..];
    unfold mbind at 1, M_bind at 1.
  - by rewrite (filters_loop_throw w pre post f [] ok _ Hpre Hbad).
  - rewrite (filters_loop_ok w arr [] filters Hfs). simpl.
    by rewrite eval_bind, Hd.
  - rewrite (filters_loop_ok w arr [] filters Hfs). simpl.
    by rewrite eval_bind, Hd, eval_bind, Hst.
Qed.

Lemma try_call_outcome {L} (f : NativeState L -> NativeState L * res (PushResult L))
    (error : Z) (w : World L) :
  try_catch (call f ≫= fun _ => mret tt) (store_error error) w
  = push_outcome error w (f (native w)).
Proof.
  unfold try_catch. rewrite call_discard. unfold push_outcome, store_error.
  by destruct (f (native w)) as [s [v|[what|]]].
Qed.

Lemma try_prepare_call_outcome {L A} (m : M L A)
    (f : A -> NativeState L -> NativeState L * res (PushResult L))
    (error : Z) (w : World L) (a : A) :
  m w = (w, Val a) ->
  try_catch (m ≫= fun x => call (f x) ≫= fun _ => mret tt) (store_error error) w
  = push_outcome error w (f a (native w)).
Proof.
  intros Hm. unfold try_catch, push_outcome, store_error. unfold_m.
  rewrite Hm. by destruct (f a (native w)) as [s [v|[what|]]].
Qed.

(** Where [*error] stands after a push function, in every case. *)
Lemma error_cell_after_run {L} (o : PushOp L) (error : Z) (w : World L) :
  cstrs (fst (op_run o error w))
  = match snd (op_try o w) with
    | Throw (StdException what) => <[error := strdup what]> (cstrs w)
    | _ => cstrs w
    end.
Proof.
  rewrite op_run_try_catch. unfold try_catch.
  pose proof (op_try_cstrs o w) as Hc.
  destruct (op_try o w) as [w' [v|[what|]]]; simpl in *; by rewrite Hc.
Qed.

(** X14.  A descriptor that the PreviewWidget constructor rejects with a
    std::exception ends the loop of preview_reply_push_widgets: push is not
    called, also not for the widgets built before it, and the caller gets
    the constructor's message through [error]. *)
Lemma rejected_descriptor_stops_the_push {L} (reply : PreviewReply L)
    (widget_data : Z -> GoString) (count : Z) (error : Z) (w : World L)
    (i : nat) (pre : list (PreviewWidget L)) (what : list byte) :
  Z.of_nat i < count ->
  map (fun j => PreviewWidget_new L (widget_text w widget_data j))
      (seqZ 0 (Z.of_nat i)) = map Val pre ->
  PreviewWidget_new L (widget_text w widget_data (Z.of_nat i))
    = Throw (StdException what) ->
  preview_reply_push_widgets reply widget_data count error w
  = (set_cstr error (strdup what) w, Val tt).
Proof.
  intros Hi Hpre Hthrow.
  assert (build_widgets widget_data count w = (w, Throw (StdException what)))
    as Hb.
  { unfold build_widgets.
    replace count with (Z.of_nat i + (1 + (count - Z.of_nat i - 1))) by lia.
    rewrite seqZ_app by lia. rewrite (seqZ_cons (0 + Z.of_nat i)) by lia.
    rewrite Z.add_0_l.
    by apply (widgets_loop_throw w widget_data _ _ _ [] pre). }
  unfold preview_reply_push_widgets, try_catch, preview_reply_push_widgets_try.
  rewrite bind_pure by apply build_widgets_pure. by rewrite Hb.
Qed.

(** ** The scenario of the protocol description on the loopback library *)

(** Register the category "sports", push two results, finish: the consumer
    has received the registration, the two results in push order and the
    finished signal, and no [char *] of the caller was written. *)
Example sports_scenario :
  let L := Loopback.ignoring in
  let mem := poke 10 (text "sports") (poke 20 (text "Sports") zeroed) in
  let w0 := Loopback.world L Loopback.initial mem in
  let run :=
    _ ← search_reply_register_category (L := L) tt
          (gostring_at 10 (text "sports")) (gostring_at 20 (text "Sports"))
          (gostring_at 0 []) (gostring_at 0 []) 500;
    _ ← search_reply_push (L := L) tt (text "Match A") 7;
    _ ← search_reply_push (L := L) tt (text "Match B") 7;
    search_reply_finished (L := L) tt in
  snd (run w0) = Val tt
  /\ native (fst (run w0))
     = Loopback.mkState Loopback.Finished
         [Loopback.EvCategory (text "sports") (text "Sports") [] (text "default");
          Loopback.EvResult (text "Match A");
          Loopback.EvResult (text "Match B");
          Loopback.EvFinished]
         [text "sports"]
  /\ cstrs (fst (run w0)) = ∅
  /\ categories (fst (run w0)) !! 500 = Some (text "sports").
Proof. vm_compute. repeat split; reflexivity. Qed.

(** On a library that rejects a push on a terminated channel with a
    std::exception, the caller of search_reply_push gets its message and
    the consumer nothing more. *)
Example rejected_push_is_reported :
  let L := Loopback.rejecting in
  let w1 := fst (search_reply_finished (L := L) tt
                   (Loopback.world L Loopback.initial zeroed)) in
  search_reply_push (L := L) tt (text "Match A") 7 w1
  = (set_cstr 7 (CStr (text "channel is closed")) w1, Val tt)
  /\ Loopback.consumer (native w1) = [Loopback.EvFinished].
Proof. vm_compute. repeat split; reflexivity. Qed.

(** * The claims *)

(** C1, as stated, fails.  search_reply_register_category has neither a
    handler nor an out-parameter: registering the id "sports" a second time
    makes the library throw, and the exception leaves the C function; so
    does the one of a second search_reply_finished on a library that
    rejects it.  In the push functions the handler names std::exception: a
    thrown value of another type passes it and leaves the function too,
    with nothing written through [error]. *)
Lemma failures_leave_the_shim :
  let sports := gostring_at 10 (text "sports") in
  let none := gostring_at 0 [] in
  let mem := poke 10 (text "sports") zeroed in
  let w1 := fst (search_reply_register_category (L := Loopback.ignoring)
                   tt sports none none none 500
                   (Loopback.world Loopback.ignoring Loopback.initial mem)) in
  let w2 := fst (search_reply_finished (L := Loopback.rejecting) tt
                   (Loopback.world Loopback.rejecting Loopback.initial zeroed)) in
  let w3 := fst (search_reply_finished (L := Loopback.aborting) tt
                   (Loopback.world Loopback.aborting Loopback.initial zeroed)) in
  snd (search_reply_register_category (L := Loopback.ignoring)
         tt sports none none none 501 w1)
    = Throw (StdException (text "duplicate category id"))
  /\ snd (search_reply_finished (L := Loopback.rejecting) tt w2)
     = Throw Loopback.closed
  /\ search_reply_push (L := Loopback.aborting) tt (text "Match A") 7 w3
     = (w3, Throw OtherException)
  /\ cstrs w3 !! 7 = None.
Proof. vm_compute. repeat split; reflexivity. Qed.

(** C1, amended.  In the four push functions a failure raised inside the
    try block as a std::exception is caught: the function returns normally
    and [*error] is the strdup of what(), nothing else of the caller's
    memory having changed.  search_reply_finished, search_reply_error,
    search_reply_register_category, search_reply_register_departments,
    preview_reply_finished and preview_reply_error have no handler: when the
    method they call throws, the exception leaves the function. *)
Theorem std_exceptions_caught_by_push_functions (L : ScopesApi) :
  (forall (o : PushOp L) (error : Z) (w w' : World L) (what : list byte),
      op_try o w = (w', Throw (StdException what)) ->
      op_run o error w = (set_cstr error (strdup what) w', Val tt)
      /\ cstrs w' = cstrs w)
  /\ (forall reply (w : World L) s e,
        SearchReply_finished L reply (native w) = (s, Throw e) ->
        search_reply_finished reply w = (set_native s w, Throw e))
  /\ (forall reply err_string (w : World L) s e,
        SearchReply_error L reply (runtime_error (text_of w err_string)) (native w)
          = (s, Throw e) ->
        search_reply_error reply err_string w = (set_native s w, Throw e))
  /\ (forall reply id title icon cat_template category (w : World L) renderer s e,
        (text_of w cat_template = [] /\ renderer = CategoryRenderer_default L
         \/ text_of w cat_template <> []
            /\ CategoryRenderer_new L (text_of w cat_template) = Val renderer) ->
        SearchReply_register_category L reply
          (text_of w id) (text_of w title) (text_of w icon) renderer (native w)
          = (s, Throw e) ->
        search_reply_register_category reply id title icon cat_template category w
          = (set_native s w, Throw e))
  /\ (forall reply dept (w : World L) s e,
        SearchReply_register_departments L reply dept (native w) = (s, Throw e) ->
        search_reply_register_departments reply dept w = (set_native s w, Throw e))
  /\ (forall reply (w : World L) s e,
        PreviewReply_finished L reply (native w) = (s, Throw e) ->
        preview_reply_finished reply w = (set_native s w, Throw e))
  /\ (forall reply err_string (w : World L) s e,
        PreviewReply_error L reply (runtime_error (text_of w err_string)) (native w)
          = (s, Throw e) ->
        preview_reply_error reply err_string w = (set_native s w, Throw e)).
Proof.
  split; [|repeat split].
  - intros o error w w' what H. split.
    + rewrite op_run_try_catch. unfold try_catch. by rewrite H.
    + rewrite <- (op_try_cstrs o w). by rewrite H.
  - intros reply w s e H. unfold search_reply_finished. unfold_m. by rewrite H.
  - intros reply str w s e H. unfold search_reply_error.
    rewrite from_gostring_bind. unfold_m. unfold text_of in H. by rewrite H.
  - intros reply id title icon tmpl category w renderer s e Hr H.
    unfold search_reply_register_category.
    rewrite from_gostring_bind. fold (text_of w tmpl).
    assert ((if negb (empty (text_of w tmpl))
             then eval (CategoryRenderer_new L (text_of w tmpl))
             else mret (CategoryRenderer_default L)) = eval (L := L) (Val renderer))
      as ->.
    { destruct Hr as [[-> ->]|[Hne ->]]; [done|].
      by destruct (text_of w tmpl). }
    rewrite eval_bind. rewrite !from_gostring_bind.
    unfold text_of in H. unfold_m. by rewrite H.
  - intros reply dept w s e H. unfold search_reply_register_departments.
    unfold_m. by rewrite H.
  - intros reply w s e H. unfold preview_reply_finished. unfold_m. by rewrite H.
  - intros reply str w s e H. unfold preview_reply_error.
    rewrite from_gostring_bind. unfold_m. unfold text_of in H. by rewrite H.
Qed.

Lemma std_exceptions_caught_by_push_functions_witness :
  let L := Loopback.rejecting in
  let w := fst (search_reply_finished (L := L) tt
                  (Loopback.world L Loopback.initial zeroed)) in
  let o : PushOp L := OpPush (tt : SearchReply L) (text "Match A" : CategorisedResult L) in
  op_try o w = (w, Throw (StdException (text "channel is closed")))
  /\ op_run o 7 w
     = (set_cstr 7 (strdup (text "channel is closed")) w, Val tt)
  /\ cstrs w = cstrs w.
Proof.
  intros L w o. split; [reflexivity|].
  apply (proj1 (std_exceptions_caught_by_push_functions L)). reflexivity.
Defined.

(** C2, as stated, fails in the outgoing direction.  The diagnostic leaves
    through [char **error] as the strdup of what(): a C string without a
    length.  The decoder of the loopback library quotes the text it rejects;
    for the JSON blob "a", NUL, "b" its message has 17 bytes, and the caller
    receives the 15 before the NUL. *)
Lemma error_diagnostic_is_cut_at_nul :
  let L := Loopback.ignoring in
  let payload := text "a" ++ [x00] ++ text "b" in
  let w := Loopback.world L Loopback.initial
             (poke 50 (text "k") (poke 100 payload zeroed)) in
  Variant_deserialize_json L payload
    = Throw (StdException (text "cannot parse: " ++ payload))
  /\ preview_reply_push_attr (L := L) tt
       (gostring_at 50 (text "k")) (gostring_at 100 payload) 7 w
     = (set_cstr 7 (CStr (text "cannot parse: a")) w, Val tt)
  /\ length (text "cannot parse: " ++ payload) = 17%nat
  /\ length (text "cannot parse: a") = 15%nat.
Proof. vm_compute. repeat split; reflexivity. Qed.

(** C2, amended.  Every string that enters the shim is a GoString, a
    (pointer, length) pair, and std::string(p, n), in from_gostring and in
    the widget loop, hands on all of its n bytes as they lie in memory,
    whatever their values: a payload with embedded NUL bytes arrives whole.  The outgoing diagnostic is a NUL-terminated C
    string: [*error] holds what() up to its first NUL byte, which is all of
    it exactly when it contains none. *)
Theorem strings_across_the_boundary (L : ScopesApi) :
  (forall (w : World L) (p : Z) (n : N),
      read_string p n w = (w, Val (std_string (bytes w) p n))
      /\ length (std_string (bytes w) p n) = N.to_nat n
      /\ forall i : nat, (i < N.to_nat n)%nat ->
           std_string (bytes w) p n !! i = Some (bytes w (p + Z.of_nat i)))
  /\ (forall (w : World L) (str : GoString),
        from_gostring str w = read_string (Go.p str) (Go.n str) w)
  /\ (forall (w : World L) (a : Z) (s : list byte),
        stored (bytes w) a s -> from_gostring (gostring_at a s) w = (w, Val s))
  /\ (forall (o : PushOp L) (error : Z) (w w' : World L) (what : list byte),
        op_try o w = (w', Throw (StdException what)) ->
        cstrs (fst (op_run o error w)) !! error = Some (CStr (c_str what))
        /\ (x00 ∉ c_str what)
        /\ (x00 ∉ what -> c_str what = what)
        /\ (forall pre post, what = pre ++ x00 :: post -> x00 ∉ pre ->
              c_str what = pre)).
Proof.
  split; [|split; [|split]].
  - intros w p n. split; [done|]. split.
    + apply length_std_string.
    + intros i Hi. by apply lookup_std_string.
  - done.
  - intros w a s. apply from_gostring_stored.
  - intros o error w w' what H. repeat split.
    + rewrite op_run_try_catch. unfold try_catch. rewrite H. simpl.
      apply lookup_insert_eq.
    + apply c_str_has_no_nul.
    + apply c_str_no_nul.
    + intros pre post ->. apply c_str_until_nul.
Qed.

Lemma strings_across_the_boundary_witness :
  let L := Loopback.ignoring in
  let payload := text "a" ++ [x00] ++ text "b" in
  let w := Loopback.world L Loopback.initial
             (poke 50 (text "k") (poke 100 payload zeroed)) in
  let o : PushOp L := OpPushAttr (tt : PreviewReply L)
                        (gostring_at 50 (text "k")) (gostring_at 100 payload) in
  stored (bytes w) 100 payload
  /\ from_gostring (gostring_at 100 payload) w = (w, Val payload)
  /\ op_try o w = (w, Throw (StdException (text "cannot parse: " ++ payload)))
  /\ cstrs (fst (op_run o 7 w)) !! 7
     = Some (CStr (c_str (text "cannot parse: " ++ payload))).
Proof.
  intros L payload w o.
  pose proof (strings_across_the_boundary L) as (_ & _ & Hin & Hout).
  assert (stored (bytes w) 100 payload) as Hst by reflexivity.
  assert (op_try o w = (w, Throw (StdException (text "cannot parse: " ++ payload))))
    as Hthrow by reflexivity.
  split; [exact Hst|]. split; [exact (Hin w 100 payload Hst)|].
  split; [exact Hthrow|]. exact (proj1 (Hout o 7 w w _ Hthrow)).
Defined.

(** C3, as stated, fails.  The shim keeps no record of the channel having
    been terminated and discards the value of the push call; on a library
    that ignores a push on a terminated channel (it returns false and sends
    nothing), search_reply_push after search_reply_finished, and after
    search_reply_error, returns normally and leaves [*error] as it was: the
    caller is told of no error. *)
Lemma push_after_termination_reports_nothing :
  let L := Loopback.ignoring in
  let mem := poke 10 (text "backend timeout") zeroed in
  let w0 := Loopback.world L Loopback.initial mem in
  let w1 := fst (search_reply_finished (L := L) tt w0) in
  let w2 := fst (search_reply_error (L := L) tt
                   (gostring_at 10 (text "backend timeout")) w0) in
  Loopback.phase (native w1) = Loopback.Finished
  /\ Loopback.phase (native w2) = Loopback.Errored
  /\ SearchReply_push L tt (text "Match A") (native w1) = (native w1, Val false)
  /\ search_reply_push (L := L) tt (text "Match A") 7 w1 = (w1, Val tt)
  /\ cstrs w1 !! 7 = None
  /\ search_reply_push (L := L) tt (text "Match A") 7 w2 = (w2, Val tt)
  /\ cstrs w2 !! 7 = None.
Proof. vm_compute. repeat split; reflexivity. Qed.

(** C3, amended.  search_reply_finished and search_reply_error change
    nothing but the state of the library: the shim records no termination.
    After either, a push is handed to the push method of the reply object as
    at any other time, in the state the library is in; the caller receives
    an error string exactly when that method throws a std::exception (the
    strdup of its what()), and what is transmitted is what that method
    transmits. *)
Theorem push_after_termination_is_forwarded (L : ScopesApi)
    (reply : SearchReply L) (err_string : GoString)
    (result : CategorisedResult L) (error : Z) (w0 : World L) :
  let w1 := fst (search_reply_finished reply w0) in
  let w2 := fst (search_reply_error reply err_string w0) in
  (exists s1 s2, w1 = set_native s1 w0 /\ w2 = set_native s2 w0)
  /\ search_reply_push reply result error w1
     = push_outcome error w1 (SearchReply_push L reply result (native w1))
  /\ search_reply_push reply result error w2
     = push_outcome error w2 (SearchReply_push L reply result (native w2)).
Proof.
  intros w1 w2. split.
  - subst w1 w2. unfold search_reply_finished, search_reply_error.
    rewrite from_gostring_bind. unfold_m.
    destruct (SearchReply_finished L reply (native w0)) as [s1 r1].
    destruct (SearchReply_error L reply _ (native w0)) as [s2 r2].
    by exists s1, s2.
  - unfold search_reply_push, search_reply_push_try.
    split; apply try_call_outcome.
Qed.

(** C4.  search_reply_push_filters takes the two JSON blobs, decodes
    both, and calls push once with the filters and the filter state.  If
    either blob fails to parse or to deserialize into the expected shape
    (with a std::exception, in any of the six ways of [blobs_rejected]), the
    function returns with [*error] set to the strdup of the decoder's
    message and with the world otherwise as it was: the library state is
    unchanged, nothing was pushed.  If both decode, the decoded filters and
    state go to the channel in a single call.  Every pair of blobs is in one
    of the two cases. *)
Theorem filters_push_is_atomic (L : ScopesApi) (reply : SearchReply L)
    (filters_json filter_state_json : GoString) (error : Z) (w : World L) :
  (forall what,
      blobs_rejected L (text_of w filters_json) (text_of w filter_state_json)
        (StdException what) ->
      search_reply_push_filters reply filters_json filter_state_json error w
        = (set_cstr error (strdup what) w, Val tt)
      /\ native (fst (search_reply_push_filters
                        reply filters_json filter_state_json error w))
         = native w)
  /\ (forall filters filter_state,
        blobs_decoded L (text_of w filters_json) (text_of w filter_state_json)
          filters filter_state ->
        search_reply_push_filters reply filters_json filter_state_json error w
          = push_outcome error w
              (SearchReply_push_filters L reply filters filter_state (native w)))
  /\ ((exists e,
         blobs_rejected L (text_of w filters_json) (text_of w filter_state_json) e)
      \/ (exists filters filter_state,
            blobs_decoded L (text_of w filters_json) (text_of w filter_state_json)
              filters filter_state)).
Proof.
  split; [|split].
  - intros what Hrej.
    rewrite (push_filters_decode_throw reply _ _ error w what
               (decode_filters_rejected w _ _ _ Hrej)).
    done.
  - intros filters st (fv & sv & arr & dict & Hf & Hs & Harr & Hfs & Hd & Hst).
    unfold search_reply_push_filters, search_reply_push_filters_try.
    apply (try_prepare_call_outcome _
             (fun fs => SearchReply_push_filters L (get_ptr reply) (fst fs) (snd fs))
             error w (filters, st)).
    by apply (decode_filters_ok w _ _ _ _ _ _ _ _ Hf Hs Harr Hfs Hd Hst).
  - destruct (Variant_deserialize_json L (text_of w filters_json))
      as [fv|e] eqn:Hf; [|left; exists e; by apply filters_unparsable].
    destruct (Variant_deserialize_json L (text_of w filter_state_json))
      as [sv|e] eqn:Hs; [|left; exists e; by eapply state_unparsable].
    destruct (Variant_get_array L fv) as [arr|e] eqn:Harr;
      [|left; exists e; by eapply filters_not_an_array].
    destruct (filters_array_cases arr)
      as [[filters Hfs]|(pre & f & post & ok & e & -> & Hpre & Hbad)];
      [|left; exists e; by eapply element_not_a_filter].
    destruct (Variant_get_dict L sv) as [dict|e] eqn:Hd;
      [|left; exists e; by eapply state_not_a_dict].
    destruct (FilterState_deserialize L dict) as [st|e] eqn:Hst;
      [|left; exists e; by eapply state_not_a_filter_state].
    right. exists filters, st. by exists fv, sv, arr, dict.
Qed.

Lemma filters_push_is_atomic_witness :
  let L := Loopback.ignoring in
  let good := json "[{'id':'size'}]" in
  let state := json "{'colour':'red'}" in
  let bad := text "{colour" in
  let w := Loopback.world L Loopback.initial
             (poke 100 good (poke 200 bad (poke 300 state zeroed))) in
  let rejected (fj sj : GoString) (what : list byte) :=
    search_reply_push_filters (L := L) tt fj sj 7 w
      = (set_cstr 7 (strdup what) w, Val tt)
    /\ native (fst (search_reply_push_filters (L := L) tt fj sj 7 w))
       = native w in
  rejected (gostring_at 200 bad) (gostring_at 300 state)
           (text "cannot parse: {colour")
  /\ rejected (gostring_at 100 good) (gostring_at 200 bad)
              (text "cannot parse: {colour")
  /\ rejected (gostring_at 300 state) (gostring_at 300 state)
              (text "not an array")
  /\ rejected (gostring_at 100 good) (gostring_at 100 good)
              (text "not a dict")
  /\ search_reply_push_filters (L := L) tt
       (gostring_at 100 good) (gostring_at 300 state) 7 w
     = (set_native
          (Loopback.mkState Loopback.Open
             [Loopback.EvFilters [text "size"] [text "colour"]] []
           : NativeState L) w, Val tt).
Proof.
  intros L good state bad w rejected. subst rejected. cbv beta.
  split; [|split; [|split; [|split]]].
  - apply (proj1 (filters_push_is_atomic L tt _ _ 7 w)).
    apply filters_unparsable. reflexivity.
  - apply (proj1 (filters_push_is_atomic L tt _ _ 7 w)).
    apply (state_unparsable L _ _ _
             (Loopback.VArray [[(text "id", text "size")]] : Variant L));
      reflexivity.
  - apply (proj1 (filters_push_is_atomic L tt _ _ 7 w)).
    apply (filters_not_an_array L _ _ _
             (Loopback.VDict [(text "colour", text "red")] : Variant L)
             (Loopback.VDict [(text "colour", text "red")] : Variant L));
      reflexivity.
  - apply (proj1 (filters_push_is_atomic L tt _ _ 7 w)).
    apply (state_not_a_dict L _ _ _
             (Loopback.VArray [[(text "id", text "size")]] : Variant L)
             (Loopback.VArray [[(text "id", text "size")]] : Variant L)
             [Loopback.VDict [(text "id", text "size")] : Variant L]
             [text "size" : FilterBase L]);
      reflexivity.
  - apply (proj1 (proj2 (filters_push_is_atomic L tt _ _ 7 w))).
    exists (Loopback.VArray [[(text "id", text "size")]] : Variant L),
           (Loopback.VDict [(text "colour", text "red")] : Variant L),
           [Loopback.VDict [(text "id", text "size")] : Variant L],
           ([(text "colour", text "red")] : VariantMap L).
    repeat split; reflexivity.
Defined.

(** C5.  search_reply_register_category registers the category with the
    default-constructed CategoryRenderer when the template string is empty,
    and with the CategoryRenderer built from exactly the bytes of the
    template string when it is not; the Category that register_category
    returns is stored into the handle [category]. *)
Theorem register_category_renderer (L : ScopesApi) (reply : SearchReply L)
    (id title icon cat_template : GoString) (category : Z) (w : World L)
    (renderer : CategoryRenderer L) (s : NativeState L) (cat : Category L) :
  (text_of w cat_template = [] /\ renderer = CategoryRenderer_default L
   \/ text_of w cat_template <> []
      /\ CategoryRenderer_new L (text_of w cat_template) = Val renderer) ->
  SearchReply_register_category L reply
    (text_of w id) (text_of w title) (text_of w icon) renderer (native w)
    = (s, Val cat) ->
  search_reply_register_category reply id title icon cat_template category w
    = (set_category category cat (set_native s w), Val tt)
  /\ categories (fst (search_reply_register_category
                        reply id title icon cat_template category w))
       !! category = Some cat.
Proof.
  intros Hr H.
  assert (search_reply_register_category reply id title icon cat_template category w
          = (set_category category cat (set_native s w), Val tt)) as Heq.
  { unfold search_reply_register_category.
    rewrite from_gostring_bind. fold (text_of w cat_template).
    assert ((if negb (empty (text_of w cat_template))
             then eval (CategoryRenderer_new L (text_of w cat_template))
             else mret (CategoryRenderer_default L)) = eval (L := L) (Val renderer))
      as ->.
    { destruct Hr as [[-> ->]|[Hne ->]]; [done|].
      by destruct (text_of w cat_template). }
    rewrite eval_bind. rewrite !from_gostring_bind.
    unfold text_of in H. unfold_m. by rewrite H. }
  rewrite Heq. split; [done|]. simpl. apply lookup_insert_eq.
Qed.

Lemma register_category_renderer_witness :
  let L := Loopback.ignoring in
  let mem := poke 10 (text "sports") (poke 20 (text "Sports")
               (poke 30 (json "{'template':{'category-layout':'grid'}}") zeroed)) in
  let w := Loopback.world L Loopback.initial mem in
  let id := gostring_at 10 (text "sports") in
  let title := gostring_at 20 (text "Sports") in
  let none := gostring_at 0 [] in
  let tmpl := gostring_at 30 (json "{'template':{'category-layout':'grid'}}") in
  let registered (renderer : list byte) : Loopback.State :=
    Loopback.mkState Loopback.Open
      [Loopback.EvCategory (text "sports") (text "Sports") [] renderer]
      [text "sports"] in
  (search_reply_register_category (L := L) tt id title none none 500 w
   = (set_category 500 (text "sports" : Category L)
        (set_native (registered (text "default") : NativeState L) w), Val tt)
   /\ categories (fst (search_reply_register_category (L := L)
                         tt id title none none 500 w)) !! 500
      = Some (text "sports"))
  /\ (search_reply_register_category (L := L) tt id title none tmpl 500 w
      = (set_category 500 (text "sports" : Category L)
           (set_native (registered (json "{'template':{'category-layout':'grid'}}")
                        : NativeState L) w), Val tt)
      /\ categories (fst (search_reply_register_category (L := L)
                            tt id title none tmpl 500 w)) !! 500
         = Some (text "sports")).
Proof.
  intros L mem w id title none tmpl registered. split.
  - apply (register_category_renderer L tt id title none none 500 w
             (text "default") (registered (text "default")) (text "sports")).
    + left. split; reflexivity.
    + reflexivity.
  - apply (register_category_renderer L tt id title none tmpl 500 w
             (json "{'template':{'category-layout':'grid'}}")
             (registered (json "{'template':{'category-layout':'grid'}}"))
             (text "sports")).
    + right. split; [discriminate | reflexivity].
    + reflexivity.
Defined.

(** C6.  For a list of n widget descriptors laid out as the GoString array
    and passed with count n, the list handed to the push method holds the
    PreviewWidget built from descriptor 0 first and the one built from
    descriptor n-1 last, and nothing else; the call is made once. *)
Theorem widgets_pushed_in_order (L : ScopesApi) (reply : PreviewReply L)
    (widget_data : Z -> GoString) (descriptors : list (list byte))
    (widgets : list (PreviewWidget L)) (error : Z) (w : World L) :
  map (widget_text w widget_data) (seqZ 0 (Z.of_nat (length descriptors)))
    = descriptors ->
  map (PreviewWidget_new L) descriptors = map Val widgets ->
  preview_reply_push_widgets reply widget_data
    (Z.of_nat (length descriptors)) error w
  = push_outcome error w (PreviewReply_push_widgets L reply widgets (native w)).
Proof.
  intros Hmem Hnew.
  unfold preview_reply_push_widgets, preview_reply_push_widgets_try.
  apply (try_prepare_call_outcome _
           (fun ws => PreviewReply_push_widgets L (get_ptr reply) ws)).
  apply build_widgets_ok. rewrite <- Hnew.
  remember (seqZ 0 (Z.of_nat (length descriptors))) as l eqn:Hl. clear Hl.
  subst descriptors. by rewrite map_map.
Qed.

Lemma widgets_pushed_in_order_witness :
  let L := Loopback.ignoring in
  let mem := poke 100 (text "W1") (poke 200 (text "W2") (poke 300 (text "W3") zeroed)) in
  let w := Loopback.world L Loopback.initial mem in
  let arr := gostring_array_of [gostring_at 100 (text "W1");
                                gostring_at 200 (text "W2");
                                gostring_at 300 (text "W3")] in
  let ws := [text "W1"; text "W2"; text "W3"] in
  let w' := fst (preview_reply_push_widgets (L := L) tt arr 3 7 w) in
  preview_reply_push_widgets (L := L) tt arr (Z.of_nat (length ws)) 7 w
    = push_outcome 7 w (PreviewReply_push_widgets L tt ws (native w))
  /\ Loopback.consumer (native (fst (preview_reply_finished (L := L) tt w')))
     = [Loopback.EvWidgets [text "W1"; text "W2"; text "W3"]; Loopback.EvFinished].
Proof.
  intros L mem w arr ws w'. split; [|reflexivity].
  apply (widgets_pushed_in_order L tt arr ws ws 7 w); reflexivity.
Defined.

(** C7.  For every message, search_reply_error and preview_reply_error call
    the error method of the reply object with the exception_ptr of a
    std::runtime_error constructed from exactly the bytes of the message;
    the shim does nothing else. *)
Theorem error_message_delivered_unchanged (L : ScopesApi)
    (sreply : SearchReply L) (preply : PreviewReply L)
    (a : Z) (msg : list byte) (w : World L) :
  stored (bytes w) a msg ->
  search_reply_error sreply (gostring_at a msg) w
    = (set_native (fst (SearchReply_error L sreply (runtime_error msg) (native w))) w,
       snd (SearchReply_error L sreply (runtime_error msg) (native w)))
  /\ preview_reply_error preply (gostring_at a msg) w
     = (set_native (fst (PreviewReply_error L preply (runtime_error msg) (native w))) w,
        snd (PreviewReply_error L preply (runtime_error msg) (native w))).
Proof.
  intros Hst. unfold search_reply_error, preview_reply_error.
  rewrite !from_gostring_bind. simpl. unfold stored in Hst. rewrite Hst.
  unfold_m. split.
  - by destruct (SearchReply_error L _ _ _).
  - by destruct (PreviewReply_error L _ _ _).
Qed.

Lemma error_message_delivered_unchanged_witness :
  let L := Loopback.ignoring in
  let msg := text "backend timeout" in
  let w := Loopback.world L Loopback.initial (poke 10 msg zeroed) in
  let errored : Loopback.State :=
    Loopback.mkState Loopback.Errored [Loopback.EvError (StdException msg)] [] in
  stored (bytes w) 10 msg
  /\ search_reply_error (L := L) tt (gostring_at 10 msg) w
     = (set_native (errored : NativeState L) w, Val tt)
  /\ preview_reply_error (L := L) tt (gostring_at 10 msg) w
     = (set_native (errored : NativeState L) w, Val tt).
Proof.
  intros L msg w errored. split; [reflexivity|].
  apply (error_message_delivered_unchanged L tt tt 10 msg w). reflexivity.
Defined.

(** C8.  Whenever the two blobs decode (the first to an array whose
    elements deserialize to filters, the second to a dict that deserializes
    to a filter state), search_reply_push_filters calls push with exactly
    these filters and this filter state.  No hypothesis relates the ids of
    the filters to the keys of the state: the shim compares nothing. *)
Theorem filters_forwarded_without_validation (L : ScopesApi)
    (reply : SearchReply L) (filters_json filter_state_json : GoString)
    (error : Z) (w : World L)
    (filters_var filter_state_var : Variant L) (arr : list (Variant L))
    (filters : list (FilterBase L)) (dict : VariantMap L)
    (filter_state : FilterState L) :
  Variant_deserialize_json L (text_of w filters_json) = Val filters_var ->
  Variant_deserialize_json L (text_of w filter_state_json) = Val filter_state_var ->
  Variant_get_array L filters_var = Val arr ->
  map filter_of arr = map Val filters ->
  Variant_get_dict L filter_state_var = Val dict ->
  FilterState_deserialize L dict = Val filter_state ->
  search_reply_push_filters reply filters_json filter_state_json error w
  = push_outcome error w
      (SearchReply_push_filters L reply filters filter_state (native w)).
Proof.
  intros Hf Hs Harr Hfs Hd Hst.
  unfold search_reply_push_filters, search_reply_push_filters_try.
  apply (try_prepare_call_outcome _
           (fun fs => SearchReply_push_filters L (get_ptr reply) (fst fs) (snd fs))
           error w (filters, filter_state)).
  by apply (decode_filters_ok w _ _ _ _ _ _ _ _ Hf Hs Harr Hfs Hd Hst).
Qed.

Lemma filters_forwarded_without_validation_witness :
  let L := Loopback.ignoring in
  let fjs := json "[{'id':'size'}]" in
  let sjs := json "{'colour':'red'}" in
  let w := Loopback.world L Loopback.initial (poke 100 fjs (poke 200 sjs zeroed)) in
  let delivered : Loopback.State :=
    Loopback.mkState Loopback.Open
      [Loopback.EvFilters [text "size"] [text "colour"]] [] in
  search_reply_push_filters (L := L) tt (gostring_at 100 fjs) (gostring_at 200 sjs) 7 w
  = (set_native (delivered : NativeState L) w, Val tt).
Proof.
  intros L fjs sjs w delivered.
  apply (filters_forwarded_without_validation L tt
           (gostring_at 100 fjs) (gostring_at 200 sjs) 7 w
           (Loopback.VArray [[(text "id", text "size")]] : Variant L)
           (Loopback.VDict [(text "colour", text "red")] : Variant L)
           [Loopback.VDict [(text "id", text "size")] : Variant L]
           [text "size" : FilterBase L]
           ([(text "colour", text "red")] : VariantMap L)
           ([text "colour"] : FilterState L)); reflexivity.
Defined.

(** C9.  In each of the four functions that take [char **error], when the
    try block completes (the push succeeded), the function returns with
    every [char *] of the caller, [*error] included, as it was before the
    call: [*error] is assigned in the handler only. *)
Theorem error_untouched_on_success (L : ScopesApi) (o : PushOp L)
    (error : Z) (w : World L) :
  snd (op_try o w) = Val tt ->
  snd (op_run o error w) = Val tt
  /\ cstrs (fst (op_run o error w)) = cstrs w
  /\ cstrs (fst (op_run o error w)) !! error = cstrs w !! error.
Proof.
  intros H. rewrite op_run_try_catch. unfold try_catch.
  pose proof (op_try_cstrs o w) as Hc.
  destruct (op_try o w) as [w' r]. simpl in *. subst r. simpl.
  by rewrite Hc.
Qed.

Lemma error_untouched_on_success_witness :
  let L := Loopback.ignoring in
  let w : World L :=
    mkWorld (Loopback.initial : NativeState L)
            (poke 50 (text "rating") (poke 100 (json "'4.5'") zeroed))
            {[ 7 := CStr (text "stale") ]} ∅ in
  let o : PushOp L := OpPushAttr (tt : PreviewReply L)
                        (gostring_at 50 (text "rating"))
                        (gostring_at 100 (json "'4.5'")) in
  snd (op_try o w) = Val tt
  /\ snd (op_run o 7 w) = Val tt
  /\ cstrs (fst (op_run o 7 w)) = cstrs w
  /\ cstrs (fst (op_run o 7 w)) !! 7 = cstrs w !! 7.
Proof.
  intros L w o. split; [reflexivity|].
  apply (error_untouched_on_success L o 7 w). reflexivity.
Defined.

(** C10.  With count 0 preview_reply_push_widgets calls the push method,
    with the empty list.  With count n >= 0 and descriptors that the
    PreviewWidget constructor accepts, the loop builds a list of exactly n
    widgets, the i-th being the PreviewWidget constructed from the bytes of
    the GoString at index i of the array. *)
Theorem widgets_built_one_per_index (L : ScopesApi) (reply : PreviewReply L)
    (widget_data : Z -> GoString) (error : Z) (w : World L) :
  preview_reply_push_widgets reply widget_data 0 error w
    = push_outcome error w (PreviewReply_push_widgets L reply [] (native w))
  /\ (forall (count : Z) (widgets : list (PreviewWidget L)),
        0 <= count ->
        map (fun i => PreviewWidget_new L (widget_text w widget_data i))
            (seqZ 0 count) = map Val widgets ->
        build_widgets widget_data count w = (w, Val widgets)
        /\ length widgets = Z.to_nat count
        /\ (forall i : nat, Z.of_nat i < count ->
              exists x, widgets !! i = Some x
                        /\ PreviewWidget_new L
                             (std_string (bytes w)
                                (Go.p (widget_data (Z.of_nat i)))
                                (Go.n (widget_data (Z.of_nat i)))) = Val x)
        /\ preview_reply_push_widgets reply widget_data count error w
           = push_outcome error w
               (PreviewReply_push_widgets L reply widgets (native w))).
Proof.
  assert (forall count widgets,
             build_widgets widget_data count w = (w, Val widgets) ->
             preview_reply_push_widgets reply widget_data count error w
             = push_outcome error w
                 (PreviewReply_push_widgets L reply widgets (native w))) as Hpush.
  { intros count widgets Hb.
    unfold preview_reply_push_widgets, preview_reply_push_widgets_try.
    by apply (try_prepare_call_outcome _
                (fun ws => PreviewReply_push_widgets L (get_ptr reply) ws)). }
  split.
  - apply Hpush. by apply build_widgets_ok.
  - intros count widgets Hcount Hmap.
    pose proof (build_widgets_ok w widget_data count widgets Hmap) as Hb.
    assert (length widgets = Z.to_nat count) as Hlen.
    { pose proof (f_equal length Hmap) as Hl.
      by rewrite !length_map, length_seqZ in Hl. }
    repeat split; [done|done| |by apply Hpush].
    intros i Hi.
    destruct (lookup_lt_is_Some_2 widgets i) as [x Hx]; [lia|].
    exists x. split; [done|].
    assert (map (fun i => PreviewWidget_new L (widget_text w widget_data i))
                (seqZ 0 count) !! i = Some (Val x)) as Hlook.
    { rewrite Hmap. by rewrite list_lookup_fmap, Hx. }
    rewrite list_lookup_fmap, lookup_seqZ_lt in Hlook by done.
    simpl in Hlook. rewrite Z.add_0_l in Hlook. by simplify_eq.
Qed.

Lemma widgets_built_one_per_index_witness :
  let L := Loopback.ignoring in
  let mem := poke 100 (text "W1") (poke 200 (text "W2") zeroed) in
  let w := Loopback.world L Loopback.initial mem in
  let arr := gostring_array_of [gostring_at 100 (text "W1");
                                gostring_at 200 (text "W2")] in
  let ws : list (PreviewWidget L) := [text "W1"; text "W2"] in
  preview_reply_push_widgets (L := L) tt arr 0 7 w
    = (set_native (Loopback.mkState Loopback.Open [Loopback.EvWidgets []] []
                   : NativeState L) w, Val tt)
  /\ build_widgets arr 2 w = (w, Val ws)
  /\ length ws = Z.to_nat 2.
Proof.
  intros L mem w arr ws.
  pose proof (widgets_built_one_per_index L tt arr 7 w) as [H0 Hn].
  split; [exact H0|].
  assert (0 <= 2) as Hc by lia.
  assert (map (fun i => PreviewWidget_new L (widget_text w arr i)) (seqZ 0 2)
          = map Val ws) as Hm by reflexivity.
  destruct (Hn 2 ws Hc Hm) as (Hb & Hl & _).
  split; [exact Hb | exact Hl].
Defined.

(** * Further properties of reply.cpp *)

(** ** What the functions write *)

(** X1.  A push function writes one thing of the caller's: the [char *]
    that [error] points to.  Whatever the outcome, the caller's bytes, the
    category handles and every other [char *] are as before the call. *)
Theorem push_writes_only_the_error_cell (L : ScopesApi) (o : PushOp L)
    (error : Z) (w : World L) :
  bytes (fst (op_run o error w)) = bytes w
  /\ categories (fst (op_run o error w)) = categories w
  /\ forall a : Z, a <> error ->
       cstrs (fst (op_run o error w)) !! a = cstrs w !! a.
Proof.
  rewrite op_run_try_catch. unfold try_catch.
  destruct (op_try_frame o w) as [s Hs].
  destruct (op_try o w) as [w' [v|[what|]]]; simpl in *; subst w'; simpl;
    repeat split; try done.
  intros a Ha. by rewrite lookup_insert_ne.
Qed.

(** search_reply_register_category, case by case. *)
Lemma register_category_cases {L} (reply : SearchReply L)
    (id title icon cat_template : GoString) (category : Z) (w : World L) :
  search_reply_register_category reply id title icon cat_template category w
  = match (if negb (empty (text_of w cat_template))
           then CategoryRenderer_new L (text_of w cat_template)
           else Val (CategoryRenderer_default L)) with
    | Throw e => (w, Throw e)
    | Val renderer =>
        match SearchReply_register_category L reply
                (text_of w id) (text_of w title) (text_of w icon) renderer
                (native w) with
        | (s, Val cat) => (set_category category cat (set_native s w), Val tt)
        | (s, Throw e) => (set_native s w, Throw e)
        end
    end.
Proof.
  unfold search_reply_register_category.
  rewrite from_gostring_bind. fold (text_of w cat_template).
  assert (forall (r : res (CategoryRenderer L)) (k : CategoryRenderer L -> M L unit),
             ((if negb (empty (text_of w cat_template))
               then eval (CategoryRenderer_new L (text_of w cat_template))
               else mret (CategoryRenderer_default L)) ≫= k) w
             = match (if negb (empty (text_of w cat_template))
                      then CategoryRenderer_new L (text_of w cat_template)
                      else Val (CategoryRenderer_default L)) with
               | Throw e => (w, Throw e)
               | Val renderer => k renderer w
               end) as Hsel.
  { intros _ k. destruct (negb _); [apply eval_bind|done]. }
  rewrite (Hsel (Val (CategoryRenderer_default L))).
  destruct (if negb _ then _ else _) as [renderer|e]; [|done].
  rewrite !from_gostring_bind. unfold text_of. unfold_m.
  by destruct (SearchReply_register_category L _ _ _ _ _ _) as [s [cat|e]].
Qed.

(** X2.  The functions without an [error] parameter write no [char *] and
    no byte of the caller.  search_reply_finished, search_reply_error,
    search_reply_register_departments, preview_reply_finished and
    preview_reply_error change the state of the library only.
    search_reply_register_category may in addition write the one handle
    [category], and writes it only when it returns: when an exception leaves
    it, every handle is as before. *)
Theorem plain_functions_write_no_caller_memory (L : ScopesApi)
    (sreply : SearchReply L) (preply : PreviewReply L)
    (err_string id title icon cat_template : GoString)
    (dept : Department L) (category : Z) (w : World L) :
  (exists s, fst (search_reply_finished sreply w) = set_native s w)
  /\ (exists s, fst (search_reply_error sreply err_string w) = set_native s w)
  /\ (exists s, fst (search_reply_register_departments sreply dept w)
               = set_native s w)
  /\ (exists s, fst (preview_reply_finished preply w) = set_native s w)
  /\ (exists s, fst (preview_reply_error preply err_string w) = set_native s w)
  /\ (let r := search_reply_register_category
                 sreply id title icon cat_template category w in
      bytes (fst r) = bytes w
      /\ cstrs (fst r) = cstrs w
      /\ (forall a : Z, a <> category ->
            categories (fst r) !! a = categories w !! a)
      /\ (forall e, snd r = Throw e -> categories (fst r) = categories w)).
Proof.
  assert (forall A (f : NativeState L -> NativeState L * res A),
             exists s, fst (call f w) = set_native s w) as Hcall.
  { intros A f. unfold call. destruct (f (native w)) as [s r]. by exists s. }
  split; [|split; [|split; [|split; [|split]]]].
  - apply Hcall.
  - unfold search_reply_error. rewrite from_gostring_bind. apply Hcall.
  - apply Hcall.
  - apply Hcall.
  - unfold preview_reply_error. rewrite from_gostring_bind. apply Hcall.
  - rewrite register_category_cases.
    destruct (if negb _ then _ else _) as [renderer|e0]; [|done].
    destruct (SearchReply_register_category L _ _ _ _ _ _) as [s [cat|e0]];
      simpl; repeat split; try done.
    intros a Ha. by rewrite lookup_insert_ne.
Qed.

(** X3.  No std::exception ever leaves a push function.  An exception
    leaves one exactly when the try block threw a value that is no
    std::exception, and it is that value. *)
Theorem only_foreign_exceptions_leave_a_push (L : ScopesApi) (o : PushOp L)
    (error : Z) (w : World L) (e : exn) :
  snd (op_run o error w) = Throw e
  <-> e = OtherException /\ snd (op_try o w) = Throw OtherException.
Proof.
  rewrite op_run_try_catch. unfold try_catch.
  destruct (op_try o w) as [w' [v|[what|]]]; simpl; split;
    try (intros [? ?]; congruence); try congruence.
  intros [= <-]. done.
Qed.

(** X4.  A push function does not clear [*error] when it succeeds: after a
    call that failed with a std::exception, a later successful call with the
    same [error] leaves the message of the failed one in place. *)
Theorem stale_error_survives_success (L : ScopesApi) (o1 o2 : PushOp L)
    (error : Z) (w : World L) (what : list byte) :
  snd (op_try o1 w) = Throw (StdException what) ->
  snd (op_try o2 (fst (op_run o1 error w))) = Val tt ->
  cstrs (fst (op_run o2 error (fst (op_run o1 error w)))) !! error
  = Some (strdup what).
Proof.
  intros H1 H2. rewrite !error_cell_after_run, H1, H2.
  apply lookup_insert_eq.
Qed.

Lemma stale_error_survives_success_witness :
  let L := Loopback.ignoring in
  let w := Loopback.world L Loopback.initial
             (poke 50 (text "rating") (poke 100 (json "'4.5'")
                (poke 200 (text "4.5") zeroed))) in
  let bad : PushOp L := OpPushAttr (tt : PreviewReply L)
                          (gostring_at 50 (text "rating"))
                          (gostring_at 200 (text "4.5")) in
  let good : PushOp L := OpPushAttr (tt : PreviewReply L)
                           (gostring_at 50 (text "rating"))
                           (gostring_at 100 (json "'4.5'")) in
  snd (op_try bad w) = Throw (StdException (text "cannot parse: 4.5"))
  /\ snd (op_try good (fst (op_run bad 7 w))) = Val tt
  /\ cstrs (fst (op_run good 7 (fst (op_run bad 7 w)))) !! 7
     = Some (strdup (text "cannot parse: 4.5")).
Proof.
  intros L w bad good. split; [reflexivity|]. split; [reflexivity|].
  apply (stale_error_survives_success L bad good 7 w); reflexivity.
Defined.

(** X5.  The handler overwrites: when two calls with the same [error] both
    fail with a std::exception, [*error] holds the message of the second. *)
Theorem last_failure_overwrites_error (L : ScopesApi) (o1 o2 : PushOp L)
    (error : Z) (w : World L) (what1 what2 : list byte) :
  snd (op_try o1 w) = Throw (StdException what1) ->
  snd (op_try o2 (fst (op_run o1 error w))) = Throw (StdException what2) ->
  cstrs (fst (op_run o2 error (fst (op_run o1 error w)))) !! error
  = Some (strdup what2).
Proof.
  intros H1 H2. rewrite error_cell_after_run, H2. apply lookup_insert_eq.
Qed.

Lemma last_failure_overwrites_error_witness :
  let L := Loopback.ignoring in
  let w := Loopback.world L Loopback.initial
             (poke 50 (text "rating") (poke 100 (text "five")
                (poke 200 (text "4.5") zeroed))) in
  let first : PushOp L := OpPushAttr (tt : PreviewReply L)
                            (gostring_at 50 (text "rating"))
                            (gostring_at 200 (text "4.5")) in
  let second : PushOp L := OpPushAttr (tt : PreviewReply L)
                             (gostring_at 50 (text "rating"))
                             (gostring_at 100 (text "five")) in
  snd (op_try first w) = Throw (StdException (text "cannot parse: 4.5"))
  /\ snd (op_try second (fst (op_run first 7 w)))
     = Throw (StdException (text "cannot parse: five"))
  /\ cstrs (fst (op_run second 7 (fst (op_run first 7 w)))) !! 7
     = Some (strdup (text "cannot parse: five")).
Proof.
  intros L w first second. split; [reflexivity|]. split; [reflexivity|].
  apply (last_failure_overwrites_error L first second 7 w
           (text "cannot parse: 4.5")); reflexivity.
Defined.

Lemma push_writes_only_the_error_cell_witness :
  let L := Loopback.ignoring in
  let w : World L :=
    mkWorld (Loopback.initial : NativeState L) (poke 200 (text "4.5") zeroed)
            {[ 8 := CStr (text "other") ]} {[ 500 := text "sports" ]} in
  let o : PushOp L := OpPushAttr (tt : PreviewReply L)
                        (gostring_at 50 (text "rating"))
                        (gostring_at 200 (text "4.5")) in
  cstrs (fst (op_run o 7 w)) !! 7 = Some (CStr (text "cannot parse: 4.5"))
  /\ cstrs (fst (op_run o 7 w)) !! 8 = cstrs w !! 8
  /\ categories (fst (op_run o 7 w)) = categories w.
Proof.
  intros L w o.
  destruct (push_writes_only_the_error_cell L o 7 w) as (_ & Hc & Hother).
  split; [reflexivity|]. split; [apply Hother; lia | exact Hc].
Defined.

Lemma plain_functions_write_no_caller_memory_witness :
  let L := Loopback.ignoring in
  let sports := gostring_at 10 (text "sports") in
  let none := gostring_at 0 [] in
  let w : World L :=
    mkWorld (Loopback.mkState Loopback.Open [] [text "sports"] : NativeState L)
            (poke 10 (text "sports") zeroed) ∅ {[ 500 := text "news" ]} in
  let r := search_reply_register_category (L := L)
             tt sports none none none 500 w in
  snd r = Throw (StdException (text "duplicate category id"))
  /\ categories (fst r) = categories w.
Proof.
  intros L sports none w r.
  assert (snd r = Throw (StdException (text "duplicate category id")))
    as Hthrow by reflexivity.
  split; [exact Hthrow|].
  destruct (plain_functions_write_no_caller_memory L tt tt none
              sports none none none (text "root" : Department L) 500 w)
    as (_ & _ & _ & _ & _ & Hreg).
  destruct Hreg as (_ & _ & _ & Hkeep). exact (Hkeep _ Hthrow).
Defined.

(** ** preview_reply_push_attr *)

(** X6.  preview_reply_push_attr decodes the value before anything else.
    A value that the JSON decoder rejects with a std::exception is reported
    through [error] and the attribute is not pushed: the library is not
    called.  A value that decodes is pushed once, under a key that has
    exactly the bytes of the key string. *)
Theorem attribute_push_cases (L : ScopesApi) (reply : PreviewReply L)
    (key json_value : GoString) (error : Z) (w : World L) :
  preview_reply_push_attr reply key json_value error w
  = match Variant_deserialize_json L (text_of w json_value) with
    | Val value =>
        push_outcome error w
          (PreviewReply_push_attr L reply (text_of w key) value (native w))
    | Throw (StdException what) => (set_cstr error (strdup what) w, Val tt)
    | Throw OtherException => (w, Throw OtherException)
    end.
Proof.
  unfold preview_reply_push_attr, preview_reply_push_attr_try, text_of.
  destruct (Variant_deserialize_json L _) as [value|[what|]] eqn:Hd.
  - rewrite <- try_call_outcome. unfold try_catch.
    rewrite from_gostring_bind, eval_bind, Hd, from_gostring_bind. done.
  - unfold try_catch. by rewrite from_gostring_bind, eval_bind, Hd.
  - unfold try_catch. by rewrite from_gostring_bind, eval_bind, Hd.
Qed.

(** ** search_reply_push_filters: which failure is reported *)

(** X7.  Both blobs are parsed before the shape of either is looked at.
    When the filters blob does not parse, its parse error is the one
    reported, whatever the state blob is.  When the filters blob parses and
    the state blob does not, the parse error of the state blob is reported,
    also when the filters blob is not an array.  Nothing is pushed in either
    case. *)
Theorem parse_errors_come_first (L : ScopesApi) (reply : SearchReply L)
    (filters_json filter_state_json : GoString) (error : Z) (w : World L)
    (what : list byte) :
  Variant_deserialize_json L (text_of w filters_json) = Throw (StdException what)
  \/ (exists filters_var,
        Variant_deserialize_json L (text_of w filters_json) = Val filters_var
        /\ Variant_deserialize_json L (text_of w filter_state_json)
           = Throw (StdException what)) ->
  search_reply_push_filters reply filters_json filter_state_json error w
  = (set_cstr error (strdup what) w, Val tt).
Proof.
  intros H. apply push_filters_decode_throw.
  by apply decode_filters_bad_json.
Qed.

Lemma parse_errors_come_first_witness :
  let L := Loopback.ignoring in
  let w := Loopback.world L Loopback.initial
             (poke 100 (json "{}") (poke 200 (text "{colour") zeroed)) in
  let fj := gostring_at 100 (json "{}") in
  let sj := gostring_at 200 (text "{colour") in
  Variant_get_array L (Loopback.VDict []) = Throw (StdException (text "not an array"))
  /\ search_reply_push_filters (L := L) tt fj sj 7 w
     = (set_cstr 7 (strdup (text "cannot parse: {colour")) w, Val tt).
Proof.
  intros L w fj sj. split; [reflexivity|].
  apply (parse_errors_come_first L tt fj sj 7 w).
  right. exists (Loopback.VDict []). split; reflexivity.
Defined.

(** X8.  The elements of the filters array are deserialized in order and
    the first one that is no dict, or no filter, ends the function: its
    std::exception is reported through [error] and nothing is pushed,
    whatever the elements after it are and whether or not the state would
    have deserialized. *)
Theorem first_bad_filter_is_reported (L : ScopesApi) (reply : SearchReply L)
    (filters_json filter_state_json : GoString) (error : Z) (w : World L)
    (filters_var filter_state_var : Variant L)
    (pre post : list (Variant L)) (f : Variant L)
    (ok : list (FilterBase L)) (what : list byte) :
  Variant_deserialize_json L (text_of w filters_json) = Val filters_var ->
  Variant_deserialize_json L (text_of w filter_state_json) = Val filter_state_var ->
  Variant_get_array L filters_var = Val (pre ++ f :: post) ->
  map filter_of pre = map Val ok ->
  filter_of f = Throw (StdException what) ->
  search_reply_push_filters reply filters_json filter_state_json error w
  = (set_cstr error (strdup what) w, Val tt).
Proof.
  intros Hf Hs Harr Hpre Hbad. apply push_filters_decode_throw.
  unfold decode_filters, text_of in *.
  rewrite from_gostring_bind, eval_bind, Hf.
  rewrite from_gostring_bind, eval_bind, Hs.
  rewrite eval_bind, Harr.
  unfold mbind at 1, M_bind at 1.
  by rewrite (filters_loop_throw w pre post f [] ok _ Hpre Hbad).
Qed.

Lemma first_bad_filter_is_reported_witness :
  let L := Picky.api in
  let fjs := json "[{'id':'size'},{'name':'x'},{'id':'age'}]" in
  let sjs := json "'4.5'" in
  let w := Loopback.world L Loopback.initial (poke 100 fjs (poke 200 sjs zeroed)) in
  search_reply_push_filters (L := L) tt (gostring_at 100 fjs) (gostring_at 200 sjs) 7 w
  = (set_cstr 7 (strdup (text "filter without id")) w, Val tt).
Proof.
  intros L fjs sjs w.
  apply (first_bad_filter_is_reported L tt
           (gostring_at 100 fjs) (gostring_at 200 sjs) 7 w
           (Loopback.VArray [[(text "id", text "size")];
                             [(text "name", text "x")];
                             [(text "id", text "age")]] : Variant L)
           (Loopback.VString (text "4.5") : Variant L)
           [Loopback.VDict [(text "id", text "size")] : Variant L]
           [Loopback.VDict [(text "id", text "age")] : Variant L]
           (Loopback.VDict [(text "name", text "x")] : Variant L)
           [text "size" : FilterBase L]); reflexivity.
Defined.

(** ** What is read *)

(** X9.  std::string(p, n) in from_gostring reads the n bytes from [p] on
    and nothing else: two memories that agree on these addresses give the
    same string, whatever lies behind them (a terminator or none). *)
Theorem gostring_reads_only_its_range (L : ScopesApi) (w w' : World L)
    (str : GoString) :
  (forall a : Z, Go.p str <= a < Go.p str + Z.of_N (Go.n str) ->
                 bytes w a = bytes w' a) ->
  snd (from_gostring str w) = snd (from_gostring str w').
Proof.
  intros Hagree. unfold from_gostring, read_string, std_string. simpl.
  f_equal. apply map_ext_in. intros i Hi. apply in_seq in Hi.
  apply Hagree. lia.
Qed.

Lemma gostring_reads_only_its_range_witness :
  let L := Loopback.ignoring in
  let w := Loopback.world L Loopback.initial (poke 10 (text "abc") zeroed) in
  let w' := Loopback.world L Loopback.initial (poke 10 (text "abcdef") zeroed) in
  let str := {| Go.p := 10; Go.n := 3 |} in
  snd (from_gostring str w) = snd (from_gostring str w')
  /\ snd (from_gostring str w') = Val (text "abc").
Proof.
  intros L w w' str. split; [|reflexivity].
  apply (gostring_reads_only_its_range L w w' str).
  intros a Ha. simpl in Ha.
  assert (a = 10 \/ a = 11 \/ a = 12) as [->|[->| ->]] by lia; reflexivity.
Defined.

Lemma for_each_ext_in {L A S} (l : list A) (b1 b2 : A -> S -> M L S) :
  (forall x, In x l -> forall acc w, b1 x acc w = b2 x acc w) ->
  forall acc w, for_each l b1 acc w = for_each l b2 acc w.
Proof.
  induction l as [|x l IH]; intros Hext acc w; simpl; [done|].
  unfold mbind, M_bind. rewrite (Hext x) by (by left).
  destruct (b2 x acc w) as [w1 [a|e]]; [|done].
  apply IH. intros y Hy. apply Hext. by right.
Qed.

(** X10.  preview_reply_push_widgets reads the elements 0 .. count-1 of the
    array and no other: two arrays that agree at these indices give the
    same call, whatever the arrays hold elsewhere. *)
Theorem widgets_read_only_below_count (L : ScopesApi) (reply : PreviewReply L)
    (arr1 arr2 : Z -> GoString) (count : Z) (error : Z) (w : World L) :
  (forall i : Z, 0 <= i < count -> arr1 i = arr2 i) ->
  preview_reply_push_widgets reply arr1 count error w
  = preview_reply_push_widgets reply arr2 count error w.
Proof.
  intros Hagree.
  assert (build_widgets arr1 count w = build_widgets (L := L) arr2 count w) as Hb.
  { unfold build_widgets. apply for_each_ext_in.
    intros i Hi acc w0. apply list_elem_of_In, elem_of_seqZ in Hi.
    rewrite Hagree by lia. done. }
  unfold preview_reply_push_widgets, try_catch, preview_reply_push_widgets_try.
  rewrite !bind_pure by apply build_widgets_pure. by rewrite Hb.
Qed.

Lemma widgets_read_only_below_count_witness :
  let L := Loopback.ignoring in
  let w := Loopback.world L Loopback.initial
             (poke 100 (text "W1") (poke 200 (text "W2") zeroed)) in
  let arr1 := gostring_array_of [gostring_at 100 (text "W1");
                                 gostring_at 200 (text "W2")] in
  let arr2 := gostring_array_of [gostring_at 100 (text "W1");
                                 gostring_at 200 (text "W2");
                                 {| Go.p := 999; Go.n := 1000 |}] in
  preview_reply_push_widgets (L := L) tt arr1 2 7 w
  = preview_reply_push_widgets (L := L) tt arr2 2 7 w.
Proof.
  intros L w arr1 arr2.
  apply (widgets_read_only_below_count L tt arr1 arr2 2 7 w).
  intros i Hi. assert (i = 0 \/ i = 1) as [->| ->] by lia; reflexivity.
Defined.

(** X11.  A count that is zero or negative makes the loop run no
    iteration: no element of the array is read, no PreviewWidget is
    constructed, and push is called with the empty list. *)
Theorem nonpositive_count_pushes_empty_list (L : ScopesApi)
    (reply : PreviewReply L) (widget_data : Z -> GoString) (count : Z)
    (error : Z) (w : World L) :
  count <= 0 ->
  build_widgets widget_data count w = (w, Val [])
  /\ preview_reply_push_widgets reply widget_data count error w
     = push_outcome error w (PreviewReply_push_widgets L reply [] (native w)).
Proof.
  intros Hc.
  assert (build_widgets (L := L) widget_data count w = (w, Val [])) as Hb.
  { unfold build_widgets. by rewrite seqZ_nil. }
  split; [done|].
  unfold preview_reply_push_widgets, preview_reply_push_widgets_try.
  by apply (try_prepare_call_outcome _
              (fun ws => PreviewReply_push_widgets L (get_ptr reply) ws)).
Qed.

Lemma nonpositive_count_pushes_empty_list_witness :
  let L := Loopback.ignoring in
  let w := Loopback.world L Loopback.initial zeroed in
  let arr := gostring_array_of [] in
  -3 <= 0
  /\ preview_reply_push_widgets (L := L) tt arr (-3) 7 w
     = (set_native (Loopback.mkState Loopback.Open [Loopback.EvWidgets []] []
                    : NativeState L) w, Val tt).
Proof.
  intros L w arr. split; [lia|].
  apply (nonpositive_count_pushes_empty_list L tt arr (-3) 7 w). lia.
Defined.

Lemma rejected_descriptor_stops_the_push_witness :
  let L := Loopback.ignoring in
  let w := Loopback.world L Loopback.initial
             (poke 100 (text "W1") (poke 300 (text "W3") zeroed)) in
  let arr := gostring_array_of [gostring_at 100 (text "W1");
                                gostring_at 200 [];
                                gostring_at 300 (text "W3")] in
  preview_reply_push_widgets (L := L) tt arr 3 7 w
  = (set_cstr 7 (strdup (text "empty widget definition")) w, Val tt)
  /\ Loopback.consumer (native (fst (preview_reply_push_widgets (L := L)
                                       tt arr 3 7 w))) = [].
Proof.
  intros L w arr. split; [|reflexivity].
  apply (rejected_descriptor_stops_the_push (L := L) tt arr 3 7 w 1
           [text "W1" : PreviewWidget L] (text "empty widget definition"));
    [lia | reflexivity | reflexivity].
Defined.

(** ** search_reply_register_category: the template *)

(** X12.  Whether the template counts as empty is decided by the length
    field of the GoString alone.  With length 0 the CategoryRenderer
    constructor is not called, whatever the pointer and the memory are: the
    category is registered with the default-constructed renderer, and the
    outcome of the function is the outcome of register_category. *)
Theorem zero_length_template_selects_default (L : ScopesApi)
    (reply : SearchReply L) (id title icon cat_template : GoString)
    (category : Z) (w : World L) :
  Go.n cat_template = 0%N ->
  search_reply_register_category reply id title icon cat_template category w
  = match SearchReply_register_category L reply
            (text_of w id) (text_of w title) (text_of w icon)
            (CategoryRenderer_default L) (native w) with
    | (s, Val cat) => (set_category category cat (set_native s w), Val tt)
    | (s, Throw e) => (set_native s w, Throw e)
    end.
Proof.
  intros Hn. rewrite register_category_cases.
  assert (text_of w cat_template = []) as ->; [|done].
  unfold text_of, std_string. by rewrite Hn.
Qed.

Lemma zero_length_template_selects_default_witness :
  let L := Picky.api in
  let w := Loopback.world L Loopback.initial
             (poke 10 (text "sports") (poke 30 (text "junk") zeroed)) in
  let id := gostring_at 10 (text "sports") in
  let none := gostring_at 0 [] in
  let tmpl := {| Go.p := 30; Go.n := 0 |} in
  CategoryRenderer_new L [] = Throw (StdException (text "renderer template is empty"))
  /\ search_reply_register_category (L := L) tt id none none tmpl 500 w
     = (set_category 500 (text "sports" : Category L)
          (set_native
             (Loopback.mkState Loopback.Open
                [Loopback.EvCategory (text "sports") [] [] (text "default")]
                [text "sports"] : NativeState L) w), Val tt).
Proof.
  intros L w id none tmpl. split; [reflexivity|].
  apply (zero_length_template_selects_default L tt id none none tmpl 500 w).
  reflexivity.
Defined.

(** X13.  When the template is not empty and the CategoryRenderer
    constructor throws, the exception leaves
    search_reply_register_category before register_category is called: the
    library is untouched, no category is registered and the handle
    [category] is not written. *)
Theorem bad_template_registers_nothing (L : ScopesApi)
    (reply : SearchReply L) (id title icon cat_template : GoString)
    (category : Z) (w : World L) (e : exn) :
  Go.n cat_template <> 0%N ->
  CategoryRenderer_new L (text_of w cat_template) = Throw e ->
  search_reply_register_category reply id title icon cat_template category w
  = (w, Throw e).
Proof.
  intros Hn Hthrow. rewrite register_category_cases.
  assert (empty (text_of w cat_template) = false) as ->.
  { pose proof (length_std_string (bytes w) (Go.p cat_template)
                  (Go.n cat_template)) as Hlen.
    unfold text_of. destruct (std_string _ _ _); [simpl in Hlen; lia|done]. }
  simpl. by rewrite Hthrow.
Qed.

Lemma bad_template_registers_nothing_witness :
  let L := Picky.api in
  let w := Loopback.world L Loopback.initial
             (poke 10 (text "sports") (poke 30 (text "grid") zeroed)) in
  let id := gostring_at 10 (text "sports") in
  let none := gostring_at 0 [] in
  let tmpl := gostring_at 30 (text "grid") in
  search_reply_register_category (L := L) tt id none none tmpl 500 w
  = (w, Throw (StdException (text "renderer template is not an object"))).
Proof.
  intros L w id none tmpl.
  apply (bad_template_registers_nothing L tt id none none tmpl 500 w).
  - discriminate.
  - reflexivity.
Defined.

(** ** The protocol of the error parameter *)

(** X15.  When the caller has set [*error] to the null pointer before the
    call, it is non-null after a push function exactly when the try block
    threw a std::exception (strdup being assumed to succeed): also when the
    message is empty. *)
Theorem error_set_iff_failure (L : ScopesApi) (o : PushOp L)
    (error : Z) (w : World L) :
  cstrs w !! error = Some NullPtr ->
  (cstrs (fst (op_run o error w)) !! error <> Some NullPtr
   <-> exists what, snd (op_try o w) = Throw (StdException what)).
Proof.
  intros Hnull. rewrite error_cell_after_run.
  destruct (snd (op_try o w)) as [v|[what|]].
  - split; [by intros []|]. by intros [what [=]].
  - rewrite lookup_insert_eq. split; [by exists what|]. by intros _ [=].
  - split; [by intros []|]. by intros [what [=]].
Qed.

Lemma error_set_iff_failure_witness :
  let L := Loopback.rejecting in
  let w : World L :=
    mkWorld (Loopback.mkState Loopback.Finished [Loopback.EvFinished] []
             : NativeState L) zeroed {[ 7 := NullPtr ]} ∅ in
  let o : PushOp L := OpPush (tt : SearchReply L) (text "Match A" : CategorisedResult L) in
  cstrs w !! 7 = Some NullPtr
  /\ (cstrs (fst (op_run o 7 w)) !! 7 <> Some NullPtr
      <-> exists what, snd (op_try o w) = Throw (StdException what)).
Proof.
  intros L w o. split; [reflexivity|].
  apply (error_set_iff_failure L o 7 w). reflexivity.
Defined.
